(** * Shuttle booking service: booking lifecycle, dispatch and fan-out hub

    A shallow embedding of the request handlers of [main.py]
    ([create_booking], [cancel_booking], [update_booking_status]) and of its
    [ConnectionManager], over the tables declared in
    [backend/setup_database.py].

    Tables with an [INTEGER PRIMARY KEY] are finite maps from the key to the
    row, so the key constraint holds by construction.  The [UNIQUE]
    constraints the handlers can hit ([bookings.booking_code],
    [trips.booking_id]) are checked on insertion and raise
    [IntegrityError], as sqlite3 does.  Foreign keys are not checked: on the
    paths modelled here every reference written is to a row that was just
    read, or to the authenticated user. *)

From stdpp Require Import gmap strings list fin_maps.
From stdpp Require Import sorting.

Local Open Scope Z_scope.
#[local] Set Warnings "-clear-no-such-hyp".

(** ** Schema *)

Inductive UserStatus := user_active | user_inactive | user_suspended.
Inductive VehicleStatus := available | in_use | maintenance | retired.
Inductive LocationStatus := loc_active | loc_inactive | loc_temporary.
Inductive BookingStatus :=
  pending | accepted | driver_arriving | ongoing | completed | cancelled | no_show.
Inductive TripStatus := trip_ongoing | trip_completed | trip_cancelled.

#[global] Instance UserStatus_eq_dec : EqDecision UserStatus.
Proof. solve_decision. Defined.
#[global] Instance VehicleStatus_eq_dec : EqDecision VehicleStatus.
Proof. solve_decision. Defined.
#[global] Instance LocationStatus_eq_dec : EqDecision LocationStatus.
Proof. solve_decision. Defined.
#[global] Instance BookingStatus_eq_dec : EqDecision BookingStatus.
Proof. solve_decision. Defined.
#[global] Instance TripStatus_eq_dec : EqDecision TripStatus.
Proof. solve_decision. Defined.

(** The text stored in the [status] column of [bookings]. *)
Definition status_text (s : BookingStatus) : string :=
  match s with
  | pending => "pending"
  | accepted => "accepted"
  | driver_arriving => "driver_arriving"
  | ongoing => "ongoing"
  | completed => "completed"
  | cancelled => "cancelled"
  | no_show => "no_show"
  end.

(** Rows.  The primary key is the key of the table, not a field.  Columns
    that no handler below reads or writes (brand, model, latitude, rating,
    ...) are left out. *)

Module Role.
Record t := mk { name : string }.
End Role.

Module User.
Record t := mk { role_id : Z; name : string; status : UserStatus }.
End User.

Module Vehicle.
Record t := mk {
  plate_number : string;
  capacity : Z;
  status : VehicleStatus;
  driver_id : option Z }.
End Vehicle.

Module Location.
Record t := mk { name : string; status : LocationStatus }.
End Location.

Module Booking.
Record t := mk {
  booking_code : string;
  user_id : Z;
  from_location_id : Z;
  to_location_id : Z;
  status : BookingStatus;
  driver_id : option Z;
  vehicle_id : option Z;
  notes : option string;
  passenger_count : Z;
  created_at : string;
  updated_at : option string;
  accepted_at : option string;
  started_at : option string;
  completed_at : option string;
  cancelled_at : option string;
  cancellation_reason : option string;
  cancelled_by : option Z }.
End Booking.

Module Trip.
Record t := mk {
  booking_id : option Z;
  driver_id : Z;
  vehicle_id : Z;
  start_time : string;
  end_time : option string;
  status : TripStatus;
  created_at : string }.
End Trip.

Module Notification.
Record t := mk {
  user_id : Z;
  title : string;
  message : string;
  type : string;
  priority : string;
  created_at : string }.
End Notification.

Module Audit.
Record t := mk {
  user_id : Z;
  action : string;
  entity_type : string;
  entity_id : option Z;
  old_value : option string;
  new_value : option string;
  ip_address : option string;
  created_at : string }.
End Audit.

Record DB := mkDB {
  roles : gmap Z Role.t;
  users : gmap Z User.t;
  vehicles : gmap Z Vehicle.t;
  locations : gmap Z Location.t;
  bookings : gmap Z Booking.t;
  trips : gmap Z Trip.t;
  notifications : list Notification.t;
  audit_log : list Audit.t }.

Definition set_bookings (f : gmap Z Booking.t → gmap Z Booking.t) (db : DB) : DB :=
  mkDB (roles db) (users db) (vehicles db) (locations db) (f (bookings db))
       (trips db) (notifications db) (audit_log db).

Definition set_trips (f : gmap Z Trip.t → gmap Z Trip.t) (db : DB) : DB :=
  mkDB (roles db) (users db) (vehicles db) (locations db) (bookings db)
       (f (trips db)) (notifications db) (audit_log db).

Definition add_notification (n : Notification.t) (db : DB) : DB :=
  mkDB (roles db) (users db) (vehicles db) (locations db) (bookings db)
       (trips db) (notifications db ++ [n]) (audit_log db).

Definition add_audit (a : Audit.t) (db : DB) : DB :=
  mkDB (roles db) (users db) (vehicles db) (locations db) (bookings db)
       (trips db) (notifications db) (audit_log db ++ [a]).

(** [cursor.lastrowid] after an insert into an [AUTOINCREMENT] table: one
    more than the largest key.  No handler of [main.py] deletes a booking or
    a trip, so the largest key is also the high-water mark sqlite keeps. *)
Definition next_rowid {A} (m : gmap Z A) : Z :=
  1 + foldr Z.max 0 (map_to_list m).*1.

(** ** Websocket hub *)

Definition WebSocket := nat.

Inductive Json := JStr (s : string) | JInt (n : Z).

(** A message is the dict handed to [send_json]. *)
Definition Message := list (string * Json).

(** One call of [send_json]: the socket, the payload, and whether the peer
    took it ([false]: the call raised). *)
Record Frame := mkFrame { to : WebSocket; payload : Message; delivered : bool }.

Record ConnectionManager := mkManager {
  active_connections : list WebSocket;
  driver_connections : gmap Z WebSocket }.

(** What the handlers cannot decide: which peers are still there, and what
    [secrets.token_hex(3)] returns on its n-th call. *)
Record Env := mkEnv {
  peer_up : WebSocket → bool;
  token_hex : nat → string }.

(** [list.remove]: the first occurrence only. *)
Fixpoint list_remove (x : WebSocket) (l : list WebSocket) : list WebSocket :=
  match l with
  | [] => []
  | y :: l' => if decide (y = x) then l' else y :: list_remove x l'
  end.

(** [connect]: the socket joins the broadcast list; it is indexed by
    [user_id] when the role is "driver" and [user_id] is truthy (neither
    [None] nor 0). *)
Definition connect (m : ConnectionManager) (websocket : WebSocket)
    (user_id : option Z) (role : option string) : ConnectionManager :=
  let active := active_connections m ++ [websocket] in
  match user_id with
  | Some uid =>
      if bool_decide (role = Some "driver") && bool_decide (uid ≠ 0)
      then mkManager active (<[uid := websocket]> (driver_connections m))
      else mkManager active (driver_connections m)
  | None => mkManager active (driver_connections m)
  end.

Definition disconnect (m : ConnectionManager) (websocket : WebSocket) : ConnectionManager :=
  mkManager
    (if decide (websocket ∈ active_connections m)
     then list_remove websocket (active_connections m)
     else active_connections m)
    (filter (λ kv : Z * WebSocket, kv.2 ≠ websocket) (driver_connections m)).

Definition send_json (env : Env) (ws : WebSocket) (message : Message) : Frame :=
  mkFrame ws message (peer_up env ws).

(** The first loop of [broadcast]: one [send_json] per connection of the
    snapshot; a failed send only records the connection as dead. *)
Fixpoint fan_out (env : Env) (message : Message) (snapshot : list WebSocket)
    : list WebSocket * list Frame :=
  match snapshot with
  | [] => ([], [])
  | connection :: rest =>
      let '(dead_connections, frames) := fan_out env message rest in
      let frame := send_json env connection message in
      if delivered frame
      then (dead_connections, frame :: frames)
      else (connection :: dead_connections, frame :: frames)
  end.

Definition broadcast (env : Env) (m : ConnectionManager) (message : Message)
    : ConnectionManager * list Frame :=
  let '(dead_connections, frames) := fan_out env message (active_connections m) in
  (foldl disconnect m dead_connections, frames).

Definition send_to_driver (env : Env) (m : ConnectionManager) (driver_id : Z)
    (message : Message) : list Frame :=
  match driver_connections m !! driver_id with
  | Some ws => [send_json env ws message]
  | None => []
  end.

(** ** Requests, exceptions and the connection to the database *)

Inductive Exn :=
  | HTTPException (status_code : Z) (detail : string)
  | IntegrityError (message : string).

(** What outlives a request: the committed database, the hub, the frames
    handed to sockets so far, and how often the token source was called. *)
Record World := mkWorld {
  database : DB;
  manager : ConnectionManager;
  wire : list Frame;
  draws : nat }.

(** A handler runs on an open connection: [tx] is what the connection sees,
    its own uncommitted writes included. *)
Record Exec := mkExec { world : World; tx : DB }.

Definition M (A : Type) : Type := Exec → (Exn + A) * Exec.

#[global] Instance M_ret : MRet M := λ A a e, (inr a, e).

#[global] Instance M_bind : MBind M := λ A B f m e,
  match m e with
  | (inl x, e') => (inl x, e')
  | (inr a, e') => f a e'
  end.

Definition raise {A} (x : Exn) : M A := λ e, (inl x, e).

Definition query {A} (f : DB → A) : M A := λ e, (inr (f (tx e)), e).

Definition execute (f : DB → DB) : M unit := λ e, (inr tt, mkExec (world e) (f (tx e))).

Definition commit : M unit := λ e,
  (inr tt,
   mkExec (mkWorld (tx e) (manager (world e)) (wire (world e)) (draws (world e))) (tx e)).

(** [with get_db() as conn]: the connection opens on the committed database
    and is closed when the block is left, by [return] or by an exception;
    what was not committed by then is lost. *)
Definition get_db {A} (body : M A) (w : World) : (Exn + A) * World :=
  let '(r, e) := body (mkExec w (database w)) in (r, world e).

Definition secrets_token_hex (env : Env) : M string := λ e,
  let w := world e in
  (inr (token_hex env (draws w)),
   mkExec (mkWorld (database w) (manager w) (wire w) (S (draws w))) (tx e)).

(** [await manager.send_to_driver(...)]: never raises. *)
Definition manager_send_to_driver (env : Env) (driver_id : Z) (message : Message) : M unit := λ e,
  let w := world e in
  (inr tt,
   mkExec (mkWorld (database w) (manager w)
             (wire w ++ send_to_driver env (manager w) driver_id message) (draws w))
          (tx e)).

(** [str.upper] on ASCII. *)
Definition upper_ascii (c : Ascii.ascii) : Ascii.ascii :=
  let n := Ascii.N_of_ascii c in
  if ((97 <=? n) && (n <=? 122))%N then Ascii.ascii_of_N (n - 32) else c.

Fixpoint upper (s : string) : string :=
  match s with
  | EmptyString => EmptyString
  | String c s' => String (upper_ascii c) (upper s')
  end.

Definition log_audit (user_id : Z) (action entity_type : string) (entity_id : option Z)
    (old_value new_value ip : option string) (created_at : string) : M unit :=
  execute (add_audit
    (Audit.mk user_id action entity_type entity_id old_value new_value ip created_at));;
  commit.

(** ** Statements *)

(** [INSERT INTO bookings]: [booking_code] is [UNIQUE]. *)
Definition insert_booking (row : Booking.t) : M Z :=
  db ← query id;
  if decide (map_Exists (λ _ b, Booking.booking_code b = Booking.booking_code row) (bookings db))
  then raise (IntegrityError "UNIQUE constraint failed: bookings.booking_code")
  else
    let rowid := next_rowid (bookings db) in
    execute (set_bookings (insert rowid row));;
    mret rowid.

(** [INSERT INTO trips]: [booking_id] is [UNIQUE]; a new trip has the
    default status 'ongoing' and no end time. *)
Definition insert_trip (booking_id driver_id vehicle_id : Z) (start_time created_at : string)
    : M Z :=
  db ← query id;
  if decide (map_Exists (λ _ t, Trip.booking_id t = Some booking_id) (trips db))
  then raise (IntegrityError "UNIQUE constraint failed: trips.booking_id")
  else
    let rowid := next_rowid (trips db) in
    execute (set_trips (insert rowid
      (Trip.mk (Some booking_id) driver_id vehicle_id start_time None trip_ongoing created_at)));;
    mret rowid.

(** [SELECT id FROM locations WHERE id IN (?, ?) AND status = 'active'] *)
Definition select_active_locations (a b : Z) (db : DB) : gmap Z Location.t :=
  filter (λ kv : Z * Location.t, (kv.1 = a ∨ kv.1 = b) ∧ Location.status kv.2 = loc_active)
         (locations db).

(** The join of the dispatch query, in the order the tables are scanned. *)
Definition available_pairs (db : DB) : list (Z * string * Z) :=
  '(uid, u) ← map_to_list (users db);
  '(vid, v) ← map_to_list (vehicles db);
  '(rid, r) ← map_to_list (roles db);
  if decide (Vehicle.driver_id v = Some uid ∧ User.role_id u = rid ∧
             Role.name r = "driver" ∧ User.status u = user_active ∧
             Vehicle.status v = available)
  then [(uid, User.name u, vid)] else [].

(** [... LIMIT 1] with [fetchone]. *)
Definition find_available_pair (db : DB) : option (Z * string * Z) :=
  head (available_pairs db).

(** [SELECT id FROM vehicles WHERE driver_id = ?] with [fetchone]. *)
Definition select_vehicle_of (driver_id : Z) (db : DB) : option Z :=
  head (filter (λ kv : Z * Vehicle.t, Vehicle.driver_id kv.2 = Some driver_id)
               (map_to_list (vehicles db))).*1.

(** [SELECT * FROM bookings WHERE id = ? AND user_id = ?] *)
Definition select_booking_of_user (booking_id user_id : Z) (db : DB) : option Booking.t :=
  match bookings db !! booking_id with
  | Some b => if decide (Booking.user_id b = user_id) then Some b else None
  | None => None
  end.

(** [SELECT * FROM bookings WHERE id = ? AND driver_id = ?] *)
Definition select_booking_of_driver (booking_id user_id : Z) (db : DB) : option Booking.t :=
  match bookings db !! booking_id with
  | Some b => if decide (Booking.driver_id b = Some user_id) then Some b else None
  | None => None
  end.

(** The [SET] clauses of the [UPDATE bookings] statements. *)

Definition set_accepted (driver vehicle : Z) (now : string) (b : Booking.t) : Booking.t :=
  Booking.mk (Booking.booking_code b) (Booking.user_id b) (Booking.from_location_id b)
    (Booking.to_location_id b) accepted (Some driver) (Some vehicle) (Booking.notes b)
    (Booking.passenger_count b) (Booking.created_at b) (Booking.updated_at b)
    (Some now) (Booking.started_at b) (Booking.completed_at b) (Booking.cancelled_at b)
    (Booking.cancellation_reason b) (Booking.cancelled_by b).

Definition set_cancelled (now : string) (user_id : Z) (b : Booking.t) : Booking.t :=
  Booking.mk (Booking.booking_code b) (Booking.user_id b) (Booking.from_location_id b)
    (Booking.to_location_id b) cancelled (Booking.driver_id b) (Booking.vehicle_id b)
    (Booking.notes b) (Booking.passenger_count b) (Booking.created_at b)
    (Booking.updated_at b) (Booking.accepted_at b) (Booking.started_at b)
    (Booking.completed_at b) (Some now) (Some "Cancelled by user") (Some user_id).

Definition set_driver_arriving (now : string) (b : Booking.t) : Booking.t :=
  Booking.mk (Booking.booking_code b) (Booking.user_id b) (Booking.from_location_id b)
    (Booking.to_location_id b) driver_arriving (Booking.driver_id b) (Booking.vehicle_id b)
    (Booking.notes b) (Booking.passenger_count b) (Booking.created_at b)
    (Some now) (Booking.accepted_at b) (Booking.started_at b)
    (Booking.completed_at b) (Booking.cancelled_at b) (Booking.cancellation_reason b)
    (Booking.cancelled_by b).

Definition set_ongoing (now : string) (b : Booking.t) : Booking.t :=
  Booking.mk (Booking.booking_code b) (Booking.user_id b) (Booking.from_location_id b)
    (Booking.to_location_id b) ongoing (Booking.driver_id b) (Booking.vehicle_id b)
    (Booking.notes b) (Booking.passenger_count b) (Booking.created_at b)
    (Some now) (Booking.accepted_at b) (Some now)
    (Booking.completed_at b) (Booking.cancelled_at b) (Booking.cancellation_reason b)
    (Booking.cancelled_by b).

Definition set_completed (now : string) (b : Booking.t) : Booking.t :=
  Booking.mk (Booking.booking_code b) (Booking.user_id b) (Booking.from_location_id b)
    (Booking.to_location_id b) completed (Booking.driver_id b) (Booking.vehicle_id b)
    (Booking.notes b) (Booking.passenger_count b) (Booking.created_at b)
    (Some now) (Booking.accepted_at b) (Booking.started_at b)
    (Some now) (Booking.cancelled_at b) (Booking.cancellation_reason b)
    (Booking.cancelled_by b).

(** [UPDATE trips SET end_time = ?, status = 'completed'
     WHERE booking_id = ? AND driver_id = ?] *)
Definition close_trip (now : string) (booking_id driver_id : Z) (t : Trip.t) : Trip.t :=
  if decide (Trip.booking_id t = Some booking_id ∧ Trip.driver_id t = driver_id)
  then Trip.mk (Trip.booking_id t) (Trip.driver_id t) (Trip.vehicle_id t)
         (Trip.start_time t) (Some now) trip_completed (Trip.created_at t)
  else t.

(** ** Handlers *)

Module BookingRequest.
Record t := mk {
  from_location_id : Z;
  to_location_id : Z;
  notes : option string;
  passenger_count : Z }.
End BookingRequest.

Module Created.
Record t := mk {
  success : bool;
  booking_id : Z;
  booking_code : string;
  status : string;
  message : string }.
End Created.

Module Cancelled.
Record t := mk { success : bool; message : string }.
End Cancelled.

Module Updated.
Record t := mk { success : bool; status : string }.
End Updated.

(** [POST /api/bookings].  [user_id] is the rider [require_role] let in,
    [today] is [datetime.now().strftime('%Y%m%d')], [now] the handler's
    [datetime.now().isoformat()] and [log_now] the one of [log_audit]. *)
Definition create_booking (env : Env) (booking : BookingRequest.t) (user_id : Z)
    (client_ip : option string) (today now log_now : string)
    : World → (Exn + Created.t) * World :=
  get_db (
    rows ← query (select_active_locations (BookingRequest.from_location_id booking)
                                           (BookingRequest.to_location_id booking));
    if decide (size rows ≠ 2%nat)
    then raise (HTTPException 404 "Invalid or inactive location")
    else
      token ← secrets_token_hex env;
      let booking_code := "SHU" +:+ today +:+ upper token in
      booking_id ← insert_booking
        (Booking.mk booking_code user_id (BookingRequest.from_location_id booking)
           (BookingRequest.to_location_id booking) pending None None
           (BookingRequest.notes booking) (BookingRequest.passenger_count booking)
           now None None None None None None None);
      driver ← query find_available_pair;
      match driver with
      | Some (driver_id, _, vehicle_id) =>
          execute (set_bookings (alter (set_accepted driver_id vehicle_id now) booking_id));;
          execute (add_notification
            (Notification.mk driver_id "Booking Baru" ("Booking baru #" +:+ booking_code)
               "booking" "high" now));;
          manager_send_to_driver env driver_id
            [("type", JStr "new_booking"); ("booking_id", JInt booking_id);
             ("booking_code", JStr booking_code)]
      | None => mret tt
      end;;
      log_audit user_id "create" "booking" (Some booking_id) None (Some booking_code)
                client_ip log_now;;
      commit;;
      mret (Created.mk true booking_id booking_code
              (match driver with Some _ => "accepted" | None => "pending" end)
              "Booking berhasil dibuat")).

(** [PUT /api/bookings/{booking_id}/cancel] *)
Definition cancel_booking (booking_id : Z) (user_id : Z) (client_ip : option string)
    (now log_now : string) : World → (Exn + Cancelled.t) * World :=
  get_db (
    booking ← query (select_booking_of_user booking_id user_id);
    match booking with
    | None => raise (HTTPException 404 "Booking not found")
    | Some booking =>
        if decide (Booking.status booking ∉ [pending; accepted])
        then raise (HTTPException 400
               ("Cannot cancel booking with status: " +:+ status_text (Booking.status booking)))
        else
          execute (set_bookings (alter (set_cancelled now user_id) booking_id));;
          log_audit user_id "cancel" "booking" (Some booking_id)
                    (Some (status_text (Booking.status booking))) (Some "cancelled")
                    client_ip log_now;;
          commit;;
          mret (Cancelled.mk true "Booking cancelled")
    end).

(** [PUT /api/driver/bookings/{booking_id}/status].  [user_id] is the driver
    [require_role] let in. *)
Definition update_booking_status (booking_id : Z) (status_update : string) (user_id : Z)
    (client_ip : option string) (now log_now : string)
    : World → (Exn + Updated.t) * World :=
  get_db (
    booking ← query (select_booking_of_driver booking_id user_id);
    match booking with
    | None => raise (HTTPException 404 "Booking not found or not assigned to you")
    | Some booking =>
        let status := status_update in
        let old_status := status_text (Booking.status booking) in
        (if decide (status = "driver_arriving") then
           execute (set_bookings (alter (set_driver_arriving now) booking_id))
         else if decide (status = "ongoing") then
           execute (set_bookings (alter (set_ongoing now) booking_id));;
           vehicle ← query (select_vehicle_of user_id);
           match vehicle with
           | Some vehicle_id => insert_trip booking_id user_id vehicle_id now now;; mret tt
           | None => mret tt
           end
         else if decide (status = "completed") then
           execute (set_bookings (alter (set_completed now) booking_id));;
           execute (set_trips (fmap (close_trip now booking_id user_id)))
         else raise (HTTPException 400 ("Invalid status: " +:+ status)));;
        log_audit user_id "status_update" "booking" (Some booking_id)
                  (Some old_status) (Some status) client_ip log_now;;
        commit;;
        mret (Updated.mk true status)
    end).

(** ** Vocabulary of the specification *)

(** The error classes of the specification, read off the status code of the
    [HTTPException]; an [IntegrityError] is none of them: it is the storage
    layer's own exception, which no handler catches. *)
Definition NotFound (x : Exn) : Prop := ∃ detail, x = HTTPException 404 detail.
Definition InvalidTransition (x : Exn) : Prop := ∃ detail, x = HTTPException 400 detail.
Definition Forbidden (x : Exn) : Prop := ∃ detail, x = HTTPException 403 detail.
Definition Conflict (x : Exn) : Prop := ∃ detail, x = HTTPException 409 detail.


(** The statuses under which invariant I1 asks for a driver and a vehicle. *)
Definition assigned_status (s : BookingStatus) : Prop :=
  s ∈ [accepted; driver_arriving; ongoing; completed].

(** A driver and a vehicle that dispatch may pick. *)
Definition eligible_pair (db : DB) (driver_id vehicle_id : Z) : Prop :=
  ∃ u v rid r,
    users db !! driver_id = Some u ∧ vehicles db !! vehicle_id = Some v ∧
    roles db !! rid = Some r ∧
    Vehicle.driver_id v = Some driver_id ∧ User.role_id u = rid ∧
    Role.name r = "driver" ∧ User.status u = user_active ∧
    Vehicle.status v = available.

(** The trips of a driver that are still 'ongoing'. *)
Definition ongoing_trips_of (driver_id : Z) (db : DB) : gmap Z Trip.t :=
  filter (λ kv : Z * Trip.t,
            Trip.driver_id kv.2 = driver_id ∧ Trip.status kv.2 = trip_ongoing)
         (trips db).

(** A booking its rider may cancel. *)
Definition cancellable (booking_id user_id : Z) (db : DB) : Prop :=
  ∃ bk, bookings db !! booking_id = Some bk ∧ Booking.user_id bk = user_id ∧
        Booking.status bk ∈ [pending; accepted].

(** Invariant I1 as the specification words it: a booking has a driver, and
    a vehicle, exactly in the statuses of [assigned_status]. *)
Definition I1 (db : DB) : Prop :=
  ∀ i bk, bookings db !! i = Some bk →
    (is_Some (Booking.driver_id bk) ↔ assigned_status (Booking.status bk)) ∧
    (is_Some (Booking.vehicle_id bk) ↔ assigned_status (Booking.status bk)).

(** The part of I1 the handlers keep: driver and vehicle are there in the
    statuses of [assigned_status], absent while the booking is pending, and
    always set or null together. *)
Definition I1_kept (db : DB) : Prop :=
  ∀ i bk, bookings db !! i = Some bk →
    (assigned_status (Booking.status bk) →
       is_Some (Booking.driver_id bk) ∧ is_Some (Booking.vehicle_id bk)) ∧
    (Booking.status bk = pending →
       Booking.driver_id bk = None ∧ Booking.vehicle_id bk = None) ∧
    (is_Some (Booking.driver_id bk) ↔ is_Some (Booking.vehicle_id bk)).

(** Every driver a booking names has a vehicle of their own. *)
Definition drivers_have_vehicles (db : DB) : Prop :=
  ∀ i bk d, bookings db !! i = Some bk → Booking.driver_id bk = Some d →
    ∃ vid vh, vehicles db !! vid = Some vh ∧ Vehicle.driver_id vh = Some d.

(** The operations of the service on bookings. *)
Inductive Request :=
  | CreateBooking (booking : BookingRequest.t) (user_id : Z) (client_ip : option string)
      (today now log_now : string)
  | CancelBooking (booking_id user_id : Z) (client_ip : option string) (now log_now : string)
  | UpdateBookingStatus (booking_id : Z) (status : string) (user_id : Z)
      (client_ip : option string) (now log_now : string).

(** The world after a request, whether it was answered or refused. *)
Definition serve (env : Env) (r : Request) (w : World) : World :=
  match r with
  | CreateBooking booking user_id ip today now log_now =>
      (create_booking env booking user_id ip today now log_now w).2
  | CancelBooking booking_id user_id ip now log_now =>
      (cancel_booking booking_id user_id ip now log_now w).2
  | UpdateBookingStatus booking_id status user_id ip now log_now =>
      (update_booking_status booking_id status user_id ip now log_now w).2
  end.

(** ** The database [create_database] sets up *)

Definition seed : DB :=
  mkDB
    (list_to_map [(1, Role.mk "pengguna"); (2, Role.mk "admin"); (3, Role.mk "driver")])
    (list_to_map
       [(1, User.mk 2 "Administrator" user_active);
        (2, User.mk 3 "Driver 1" user_active);
        (3, User.mk 3 "Driver 2" user_active);
        (4, User.mk 1 "Mahasiswa Test" user_active)])
    (list_to_map
       [(1, Vehicle.mk "L 1234 AB" 14 available (Some 2));
        (2, Vehicle.mk "L 5678 CD" 14 available (Some 3))])
    (list_to_map
       [(1, Location.mk "Pos P13" loc_active); (2, Location.mk "PPS" loc_active);
        (3, Location.mk "Gedung 1A" loc_active); (4, Location.mk "Gedung 1B" loc_active);
        (5, Location.mk "POTK" loc_active); (6, Location.mk "K3" loc_active);
        (7, Location.mk "POS 1 SIG" loc_active); (8, Location.mk "Wiragraha" loc_active)])
    ∅ ∅ [] [].

(** The server as it starts: nobody connected, nothing sent. *)
Definition boot (db : DB) : World := mkWorld db (mkManager [] ∅) [] 0.

(** ** Fixtures *)

(** [seed] with the second van in the workshop: driver 2 with vehicle 1 is
    the only pair dispatch can pick. *)
Definition one_van : DB :=
  mkDB (roles seed) (users seed)
       (<[2 := Vehicle.mk "L 5678 CD" 14 maintenance (Some 3)]> (vehicles seed))
       (locations seed) ∅ ∅ [] [].

(** Every peer is up; the token source returns "abcdef" first and "012345"
    from then on. *)
Definition calm : Env :=
  mkEnv (λ _, true) (λ n, match n with O => "abcdef" | _ => "012345" end).

Definition ride_1_to_2 : BookingRequest.t := BookingRequest.mk 1 2 None 1.

(** The student (user 4) has booked a ride on [one_van] and got driver 2. *)
Definition booked : World :=
  (create_booking calm ride_1_to_2 4 None "20250101" "09:00" "09:00" (boot one_van)).2.

(** Driver 2 then drives that booking to the end. *)
Definition arriving : World :=
  (update_booking_status 1 "driver_arriving" 2 None "09:05" "09:05" booked).2.
Definition riding : World :=
  (update_booking_status 1 "ongoing" 2 None "09:10" "09:10" arriving).2.
Definition finished : World :=
  (update_booking_status 1 "completed" 2 None "09:30" "09:30" riding).2.

(** While driver 2 is on the road with booking 1, the student books again:
    vehicle 1 is still 'available', so booking 2 goes to driver 2 as well. *)
Definition booked_again : World :=
  (create_booking calm (BookingRequest.mk 3 4 None 1) 4 None "20250101" "09:15" "09:15"
     riding).2.


(** ** Running a handler *)

Ltac run :=
  unfold get_db, log_audit, insert_booking, insert_trip, manager_send_to_driver,
    secrets_token_hex;
  unfold mbind, M_bind, mret, M_ret, query, execute, raise, commit; simpl.


(** * The rest of the service

    The handlers and hub operations around the booking life cycle: the
    websocket endpoint, the location samples of drivers, the location
    administration, the listings, and the session check every handler sits
    behind. *)

(** ** What a request comes to *)

(** The exception a request ends in, if it is refused. *)
Definition refusal (env : Env) (r : Request) (w : World) : option Exn :=
  match r with
  | CreateBooking booking user_id ip today now log_now =>
      match (create_booking env booking user_id ip today now log_now w).1 with
      | inl x => Some x
      | inr _ => None
      end
  | CancelBooking booking_id user_id ip now log_now =>
      match (cancel_booking booking_id user_id ip now log_now w).1 with
      | inl x => Some x
      | inr _ => None
      end
  | UpdateBookingStatus booking_id status user_id ip now log_now =>
      match (update_booking_status booking_id status user_id ip now log_now w).1 with
      | inl x => Some x
      | inr _ => None
      end
  end.

(** Who asks, and the action [log_audit] is given. *)
Definition actor (r : Request) : Z :=
  match r with
  | CreateBooking _ user_id _ _ _ _ => user_id
  | CancelBooking _ user_id _ _ _ => user_id
  | UpdateBookingStatus _ _ user_id _ _ _ => user_id
  end.

Definition audit_action (r : Request) : string :=
  match r with
  | CreateBooking _ _ _ _ _ _ => "create"
  | CancelBooking _ _ _ _ _ => "cancel"
  | UpdateBookingStatus _ _ _ _ _ _ => "status_update"
  end.



(** ** The websocket endpoint *)

(** What happens to the hub while the server runs: [/ws/tracking] accepts a
    socket with [manager.connect(websocket)], naming neither user nor role;
    the peer of a socket goes away and the endpoint calls
    [manager.disconnect(websocket)]; [submit_driver_location] broadcasts. *)
Inductive HubEvent :=
  | ws_accepted (websocket : WebSocket)
  | ws_disconnected (websocket : WebSocket)
  | ws_broadcast (message : Message).

Definition websocket_endpoint (env : Env) (m : ConnectionManager) (ev : HubEvent)
    : ConnectionManager :=
  match ev with
  | ws_accepted websocket => connect m websocket None None
  | ws_disconnected websocket => disconnect m websocket
  | ws_broadcast message => (broadcast env m message).1
  end.

(** ** Location samples *)

(** The numbers of a sample (latitude, speed, ...) are floats the handler
    stores and forwards and never computes with: their type [F] is left
    open, and so is [number], the way such a value sits in a message. *)

Module LocationData.
Record t (F : Type) := mk {
  latitude : F;
  longitude : F;
  speed : F;
  heading : F;
  accuracy : F;
  altitude : option F }.
Arguments mk {F}.
Arguments latitude {F}.
Arguments longitude {F}.
Arguments speed {F}.
Arguments heading {F}.
Arguments accuracy {F}.
Arguments altitude {F}.
End LocationData.

(** A row of [location_history]. *)
Module Sample.
Record t (F : Type) := mk {
  trip_id : option Z;
  driver_id : Z;
  latitude : F;
  longitude : F;
  speed : F;
  heading : F;
  accuracy : F;
  altitude : option F;
  timestamp : string }.
Arguments mk {F}.
Arguments trip_id {F}.
Arguments driver_id {F}.
Arguments latitude {F}.
Arguments longitude {F}.
Arguments speed {F}.
Arguments heading {F}.
Arguments accuracy {F}.
Arguments altitude {F}.
Arguments timestamp {F}.
End Sample.

(** The world together with the [location_history] table. *)
Record Tracking (F : Type) := mkTracking {
  site : World;
  location_history : list (Sample.t F) }.
Arguments mkTracking {F}.
Arguments site {F}.
Arguments location_history {F}.

(** [SELECT id FROM trips WHERE driver_id = ? AND status = 'ongoing'
     ORDER BY start_time DESC LIMIT 1] with [fetchone]; text is compared
    byte by byte. *)
Definition select_active_trip (driver_id : Z) (db : DB) : option Z :=
  head (merge_sort
          (λ a b : Z * Trip.t, String.le (Trip.start_time b.2) (Trip.start_time a.2))
          (filter (λ kv : Z * Trip.t,
                     Trip.driver_id kv.2 = driver_id ∧ Trip.status kv.2 = trip_ongoing)
                  (map_to_list (trips db)))).*1.

(** [POST /api/driver/location].  The sample is committed before the
    broadcast, and [broadcast] does not raise. *)
Definition submit_driver_location {F} (env : Env) (number : F → Json)
    (data : LocationData.t F) (user_id : Z) (now : string) (s : Tracking F)
    : (Exn + bool) * Tracking F :=
  match select_active_trip user_id (database (site s)) with
  | None => (inl (HTTPException 400 "No active trip"), s)
  | Some trip_id =>
      let row :=
        Sample.mk (Some trip_id) user_id (LocationData.latitude data)
          (LocationData.longitude data) (LocationData.speed data)
          (LocationData.heading data) (LocationData.accuracy data)
          (LocationData.altitude data) now in
      let '(m, frames) :=
        broadcast env (manager (site s))
          [("type", JStr "location_update"); ("driver_id", JInt user_id);
           ("latitude", number (LocationData.latitude data));
           ("longitude", number (LocationData.longitude data));
           ("speed", number (LocationData.speed data));
           ("timestamp", JStr now)] in
      (inr true,
       mkTracking
         (mkWorld (database (site s)) m (wire (site s) ++ frames) (draws (site s)))
         (location_history s ++ [row]))
  end.

(** ** Location administration *)

(** Of a location the handlers store name, description, coordinates, type
    and address as given; [Location.t] keeps the name, and the type matters
    once, for the [CHECK] constraint of the column. *)
Module LocationCreate.
Record t := mk { name : string; type : string }.
End LocationCreate.

Definition set_locations (f : gmap Z Location.t → gmap Z Location.t) (db : DB) : DB :=
  mkDB (roles db) (users db) (vehicles db) (f (locations db)) (bookings db)
       (trips db) (notifications db) (audit_log db).

Definition set_name (name : string) (l : Location.t) : Location.t :=
  Location.mk name (Location.status l).

Definition set_inactive (l : Location.t) : Location.t :=
  Location.mk (Location.name l) loc_inactive.

(** [INSERT INTO locations (..., status, ...) VALUES (..., 'active', ...)]:
    [type] is checked against ('pickup', 'drop', 'both'), then [name] is
    [UNIQUE].  (The wording of the CHECK message varies with the sqlite
    version.) *)
Definition insert_location (location : LocationCreate.t) : M Z :=
  db ← query id;
  if decide (LocationCreate.type location ∉ ["pickup"; "drop"; "both"])
  then raise (IntegrityError "CHECK constraint failed: locations")
  else if decide (map_Exists (λ _ l, Location.name l = LocationCreate.name location)
                             (locations db))
  then raise (IntegrityError "UNIQUE constraint failed: locations.name")
  else
    let rowid := next_rowid (locations db) in
    execute (set_locations (insert rowid
      (Location.mk (LocationCreate.name location) loc_active)));;
    mret rowid.

(** [UPDATE locations SET name = ?, ..., type = ?, ... WHERE id = ?]: the
    constraints are checked on the row that changes, if there is one. *)
Definition update_location_row (location_id : Z) (location : LocationCreate.t) : M unit :=
  db ← query id;
  match locations db !! location_id with
  | None => mret tt
  | Some _ =>
      if decide (LocationCreate.type location ∉ ["pickup"; "drop"; "both"])
      then raise (IntegrityError "CHECK constraint failed: locations")
      else if decide (map_Exists
                        (λ i l, i ≠ location_id ∧
                                Location.name l = LocationCreate.name location)
                        (locations db))
      then raise (IntegrityError "UNIQUE constraint failed: locations.name")
      else execute (set_locations (alter (set_name (LocationCreate.name location))
                                         location_id))
  end.

(** [POST /api/admin/locations]; the answer carries the [location_id]. *)
Definition create_location (location : LocationCreate.t) (user_id : Z)
    (client_ip : option string) (log_now : string) : World → (Exn + Z) * World :=
  get_db (
    location_id ← insert_location location;
    log_audit user_id "create" "location" (Some location_id) None
              (Some (LocationCreate.name location)) client_ip log_now;;
    commit;;
    mret location_id).

(** [PUT /api/admin/locations/{location_id}] *)
Definition update_location (location_id : Z) (location : LocationCreate.t) (user_id : Z)
    (client_ip : option string) (log_now : string) : World → (Exn + bool) * World :=
  get_db (
    old ← query (λ db, locations db !! location_id);
    update_location_row location_id location;;
    log_audit user_id "update" "location" (Some location_id) (Location.name <$> old)
              (Some (LocationCreate.name location)) client_ip log_now;;
    commit;;
    mret true).

(** [DELETE /api/admin/locations/{location_id}]: the row stays, inactive. *)
Definition delete_location (location_id : Z) (user_id : Z) (client_ip : option string)
    (log_now : string) : World → (Exn + bool) * World :=
  get_db (
    execute (set_locations (alter set_inactive location_id));;
    log_audit user_id "delete" "location" (Some location_id) None None client_ip log_now;;
    commit;;
    mret true).

(** [GET /api/locations]:
    [SELECT * FROM locations WHERE status = 'active' ORDER BY name] *)
Definition get_locations (db : DB) : list (Z * Location.t) :=
  merge_sort (λ a b : Z * Location.t, String.le (Location.name a.2) (Location.name b.2))
    (filter (λ kv : Z * Location.t, Location.status kv.2 = loc_active)
            (map_to_list (locations db))).

(** The three of them as requests of the administrator. *)
Inductive AdminRequest :=
  | CreateLocation (location : LocationCreate.t) (user_id : Z) (client_ip : option string)
      (log_now : string)
  | UpdateLocation (location_id : Z) (location : LocationCreate.t) (user_id : Z)
      (client_ip : option string) (log_now : string)
  | DeleteLocation (location_id : Z) (user_id : Z) (client_ip : option string)
      (log_now : string).

Definition administer (r : AdminRequest) (w : World) : World :=
  match r with
  | CreateLocation location user_id ip log_now =>
      (create_location location user_id ip log_now w).2
  | UpdateLocation location_id location user_id ip log_now =>
      (update_location location_id location user_id ip log_now w).2
  | DeleteLocation location_id user_id ip log_now =>
      (delete_location location_id user_id ip log_now w).2
  end.

(** ** Listings *)

(** A row of [GET /api/driver/bookings]: the booking with the names joined
    to it (the rider's phone and the coordinates are not modelled). *)
Record DriverBooking := mkDriverBooking {
  db_id : Z;
  db_booking : Booking.t;
  db_user_name : string;
  db_from_location : string;
  db_to_location : string }.

(** [... FROM bookings b JOIN users u ... JOIN locations l1 ... JOIN
     locations l2 ... WHERE b.driver_id = ? AND b.status != 'completed' AND
     b.status != 'cancelled' ORDER BY b.created_at DESC] *)
Definition get_driver_bookings (user_id : Z) (db : DB) : list DriverBooking :=
  merge_sort
    (λ a b, String.le (Booking.created_at (db_booking b))
                      (Booking.created_at (db_booking a)))
    ('(i, b) ← map_to_list (bookings db);
     match users db !! Booking.user_id b,
           locations db !! Booking.from_location_id b,
           locations db !! Booking.to_location_id b with
     | Some u, Some l1, Some l2 =>
         if decide (Booking.driver_id b = Some user_id ∧
                    Booking.status b ≠ completed ∧ Booking.status b ≠ cancelled)
         then [mkDriverBooking i b (User.name u) (Location.name l1) (Location.name l2)]
         else []
     | _, _, _ => []
     end).

(** ** Sessions *)

Module Session.
Record t := mk { user_id : Z; token : string; expires_at : string }.
End Session.

(** The token of an [Authorization] header: the header must be there and
    start with "Bearer ", and the token is what follows that first
    occurrence. *)
Definition bearer_token (authorization : option string) : option string :=
  match authorization with
  | Some header =>
      if String.prefix "Bearer " header
      then Some (String.substring 7 (String.length header - 7) header)
      else None
  | None => None
  end.

(** [SELECT s.user_id, u.email, r.name as role, u.status FROM sessions s
     JOIN users u ON s.user_id = u.id JOIN roles r ON u.role_id = r.id
     WHERE s.token = ? AND s.expires_at > ?] with [fetchone]. *)
Definition select_session (token now_iso : string) (sessions : gmap Z Session.t) (db : DB)
    : option (Z * string * UserStatus) :=
  head ('(sid, s) ← map_to_list sessions;
        match users db !! Session.user_id s with
        | Some u =>
            match roles db !! User.role_id u with
            | Some r =>
                if decide (Session.token s = token ∧
                           ¬ String.le (Session.expires_at s) now_iso)
                then [(Session.user_id s, Role.name r, User.status u)]
                else []
            | None => []
            end
        | None => []
        end).

Definition get_current_user (authorization : option string) (now_iso : string)
    (sessions : gmap Z Session.t) (db : DB) : Exn + Z * string :=
  match bearer_token authorization with
  | None => inl (HTTPException 401 "Not authenticated")
  | Some token =>
      match select_session token now_iso sessions db with
      | None => inl (HTTPException 401 "Invalid or expired token")
      | Some (user_id, role, status) =>
          if decide (status ≠ user_active)
          then inl (HTTPException 403 "Account is not active")
          else inr (user_id, role)
      end
  end.

(** [Depends(require_role(...))]: the user the handler then runs for. *)
Definition require_role (allowed_roles : list string) (authorization : option string)
    (now_iso : string) (sessions : gmap Z Session.t) (db : DB) : Exn + Z :=
  match get_current_user authorization now_iso sessions db with
  | inl x => inl x
  | inr (user_id, role) =>
      if decide (role ∉ allowed_roles)
      then inl (HTTPException 403
                  ("Access denied. Required role: " +:+ String.concat ", " allowed_roles))
      else inr user_id
  end.

(** [POST /api/auth/logout] *)
Definition logout (authorization : option string) (now_iso log_now : string)
    (sessions : gmap Z Session.t) (w : World)
    : (Exn + bool) * (gmap Z Session.t * World) :=
  match require_role ["pengguna"; "admin"; "driver"] authorization now_iso sessions
                     (database w) with
  | inl x => (inl x, (sessions, w))
  | inr user_id =>
      match bearer_token authorization with
      | None => (inl (HTTPException 401 "Not authenticated"), (sessions, w))
      | Some token =>
          (inr true,
           (filter (λ kv : Z * Session.t, Session.token kv.2 ≠ token) sessions,
            (get_db (log_audit user_id "logout" "user" (Some user_id) None None None
                               log_now;;
                     commit) w).2))
      end
  end.


(** ** More fixtures *)

(** [booked] after vehicle 1 has left the fleet: booking 1 still names
    driver 2, who has no vehicle any more. *)
Definition van_gone : World :=
  mkWorld
    (mkDB (roles (database booked)) (users (database booked)) ∅
          (locations (database booked)) (bookings (database booked))
          (trips (database booked)) (notifications (database booked))
          (audit_log (database booked)))
    (manager booked) (wire booked) (draws booked).

(** Driver 2 logged in at nine on the first of January; the session ends a
    week later. *)
Definition one_session : gmap Z Session.t :=
  {[1 := Session.mk 2 "tok-driver" "2025-01-08T09:00:00"]}.
(** * Properties *)

Lemma next_rowid_fresh {A} (m : gmap Z A) : m !! next_rowid m = None.
Proof.
  destruct (m !! next_rowid m) as [x|] eqn:E; [|done]. exfalso.
  assert (∀ l : list Z, ∀ k, k ∈ l → k ≤ foldr Z.max 0 l) as Hmax.
  { induction l as [|y l IH]; intros k Hk; [by apply elem_of_nil in Hk|].
    apply elem_of_cons in Hk as [->|Hk]; simpl; [lia|].
    specialize (IH k Hk). lia. }
  apply elem_of_map_to_list in E.
  assert (next_rowid m ∈ (map_to_list m).*1) as Hin
    by (apply list_elem_of_fmap; by exists (next_rowid m, x)).
  apply Hmax in Hin. unfold next_rowid in Hin. lia.
Qed.

(** *** The location check *)




(** *** [update_booking_status]: the two rejections *)

Lemma update_booking_status_not_assigned booking_id status user_id ip now log_now w :
  select_booking_of_driver booking_id user_id (database w) = None →
  update_booking_status booking_id status user_id ip now log_now w =
    (inl (HTTPException 404 "Booking not found or not assigned to you"), w).
Proof.
  intros Hsel. unfold update_booking_status. run. rewrite Hsel. by destruct w.
Qed.

Lemma update_booking_status_unknown_target booking_id status user_id ip now log_now w :
  is_Some (select_booking_of_driver booking_id user_id (database w)) →
  status ∉ ["driver_arriving"; "ongoing"; "completed"] →
  update_booking_status booking_id status user_id ip now log_now w =
    (inl (HTTPException 400 ("Invalid status: " +:+ status)), w).
Proof.
  intros [bk Hsel] Hst. unfold update_booking_status. run. rewrite Hsel.
  repeat case_decide; subst; try (exfalso; apply Hst; set_solver).
  by destruct w.
Qed.

(** *** Booking creation: the location check *)


(** *** Cancellation *)

(** C5: [cancel_booking] succeeds exactly when the booking belongs to the
    acting rider and is pending or accepted; it then records status
    'cancelled', the time, the rider and the reason on that booking.  On a
    booking of the rider in any other status (completed, say) it fails with
    the 400 error and the world is unchanged. *)
Theorem cancel_booking_when_owner_and_open booking_id user_id ip now log_now w :
  let r := cancel_booking booking_id user_id ip now log_now w in
  ((∃ ok, r.1 = inr ok) ↔ cancellable booking_id user_id (database w)) ∧
  (∀ bk, bookings (database w) !! booking_id = Some bk →
         Booking.user_id bk = user_id → Booking.status bk ∈ [pending; accepted] →
     r.1 = inr (Cancelled.mk true "Booking cancelled") ∧
     bookings (database r.2) =
       <[booking_id := set_cancelled now user_id bk]> (bookings (database w)) ∧
     Booking.status (set_cancelled now user_id bk) = cancelled ∧
     Booking.cancelled_at (set_cancelled now user_id bk) = Some now ∧
     Booking.cancelled_by (set_cancelled now user_id bk) = Some user_id ∧
     Booking.cancellation_reason (set_cancelled now user_id bk) = Some "Cancelled by user") ∧
  (∀ bk, bookings (database w) !! booking_id = Some bk →
         Booking.user_id bk = user_id → Booking.status bk ∉ [pending; accepted] →
     (∃ x, r.1 = inl x ∧ InvalidTransition x) ∧ r.2 = w).
Proof.
  unfold cancel_booking, cancellable, select_booking_of_user. run.
  destruct (bookings (database w) !! booking_id) as [bk|] eqn:Hbk; simpl.
  2: { split_and!; [|done|done]. split; [intros [? ?]; done | naive_solver]. }
  destruct (decide (Booking.user_id bk = user_id)) as [Ho|Ho]; simpl.
  2: { split_and!.
       - split; [intros [? ?]; done | naive_solver].
       - intros ? [= <-] ?; done.
       - intros ? [= <-] ?; done. }
  destruct (decide (Booking.status bk ∉ [pending; accepted])) as [Hs|Hs]; simpl.
  - split_and!.
    + split; [intros [? ?]; done | naive_solver].
    + intros ? [= <-] _ ?; done.
    + intros ? [= <-] _ _. split; [|by destruct w]. eexists; split; [done|]. by eexists.
  - apply dec_stable in Hs. split_and!.
    + split; [naive_solver | eauto].
    + intros ? [= <-] _ _. split_and!; try done.
      apply map_eq. intros i. destruct (decide (i = booking_id)) as [->|Hne].
      * by rewrite lookup_alter_eq, lookup_insert_eq, Hbk.
      * by rewrite lookup_alter_ne, lookup_insert_ne.
    + intros ? [= <-] _ ?; done.
Qed.

(** *** Driver transitions *)

(** C7 (as the code has it): a driver asking for a transition of a booking
    assigned to another driver is turned away with the 404 of a booking that
    does not exist, and the world is unchanged; the booking is looked up by
    its id and [driver_id] together. *)
Theorem update_booking_status_other_driver booking_id bk driver_A driver_B status ip
    now log_now w :
  bookings (database w) !! booking_id = Some bk →
  Booking.driver_id bk = Some driver_B →
  driver_A ≠ driver_B →
  update_booking_status booking_id status driver_A ip now log_now w =
    (inl (HTTPException 404 "Booking not found or not assigned to you"), w).
Proof.
  intros Hbk HB Hne. apply update_booking_status_not_assigned.
  unfold select_booking_of_driver. rewrite Hbk. case_decide; [congruence | done].
Qed.

Lemma update_booking_status_other_driver_witness :
  update_booking_status 1 "driver_arriving" 3 None "09:05" "09:05" booked =
    (inl (HTTPException 404 "Booking not found or not assigned to you"), booked).
Proof.
  eapply (update_booking_status_other_driver 1 _ 3 2);
    [vm_compute; reflexivity | reflexivity | lia].
Defined.

(** C7, the claim as written fails: driver 3 asks for booking 1 of driver 2
    and gets a 404, which is not the Forbidden class. *)
Lemma other_driver_gets_not_found :
  Booking.driver_id <$> bookings (database booked) !! 1 = Some (Some 2) ∧
  (update_booking_status 1 "driver_arriving" 3 None "09:05" "09:05" booked).1 =
    inl (HTTPException 404 "Booking not found or not assigned to you") ∧
  ¬ Forbidden (HTTPException 404 "Booking not found or not assigned to you").
Proof.
  split_and!; [vm_compute; reflexivity | vm_compute; reflexivity |].
  intros [detail [=]].
Qed.




Lemma cancel_booking_when_owner_and_open_witness :
  (cancel_booking 1 4 None "09:02" "09:02" booked).1 =
    inr (Cancelled.mk true "Booking cancelled").
Proof.
  eapply (cancel_booking_when_owner_and_open 1 4 None "09:02" "09:02" booked);
    [vm_compute; reflexivity | reflexivity | vm_compute; set_solver].
Defined.

(** *** The hub *)

Lemma fan_out_spec env message snapshot :
  fan_out env message snapshot =
    (filter (λ c, peer_up env c = false) snapshot,
     (λ c, send_json env c message) <$> snapshot).
Proof.
  induction snapshot as [|c l IH]; [done|].
  simpl. rewrite IH. simpl. rewrite filter_cons.
  destruct (peer_up env c) eqn:E; case_decide; done.
Qed.

Lemma list_remove_app_fresh x pre l :
  x ∉ pre → list_remove x (pre ++ x :: l) = pre ++ l.
Proof.
  induction pre as [|y pre IH]; intros Hx; simpl.
  - by rewrite decide_True.
  - apply not_elem_of_cons in Hx as [Hne Hx].
    rewrite decide_False by done. by rewrite IH.
Qed.

Lemma disconnect_all_active m dead :
  active_connections (foldl disconnect m dead) =
    foldl (λ acc x, if decide (x ∈ acc) then list_remove x acc else acc)
          (active_connections m) dead.
Proof.
  revert m. induction dead as [|x dead IH]; intros m; [done|].
  simpl. by rewrite IH.
Qed.

Lemma disconnect_all_drivers m dead d ws :
  driver_connections (foldl disconnect m dead) !! d = Some ws ↔
  driver_connections m !! d = Some ws ∧ ws ∉ dead.
Proof.
  revert m. induction dead as [|x dead IH]; intros m; simpl.
  - split; [intros ?; split; [done | apply not_elem_of_nil] | by intros [? _]].
  - rewrite IH. simpl. rewrite map_lookup_filter_Some, not_elem_of_cons. simpl.
    naive_solver.
Qed.

Lemma strike_dead (up : WebSocket → bool) pre l :
  Forall (λ c, up c = true) pre →
  foldl (λ acc x, if decide (x ∈ acc) then list_remove x acc else acc)
        (pre ++ l) (filter (λ c, up c = false) l) =
    pre ++ filter (λ c, up c = true) l.
Proof.
  revert pre. induction l as [|c l IH]; intros pre Hpre; [done|].
  rewrite !filter_cons. destruct (up c) eqn:E.
  - rewrite decide_False by done. rewrite decide_True by done.
    rewrite (cons_middle c pre l), app_assoc.
    rewrite IH by (apply Forall_app; split; [done | by constructor]).
    by rewrite <- app_assoc.
  - rewrite decide_True by done. rewrite decide_False by congruence.
    simpl. rewrite decide_True by set_solver.
    rewrite list_remove_app_fresh; [by apply IH|].
    intros Hin. rewrite Forall_forall in Hpre. specialize (Hpre _ Hin). congruence.
Qed.

(** Two drivers on two sockets: a message for driver 7 is one frame, to
    driver 7's socket. *)
Example targeted_message_reaches_its_driver_only :
  let m := connect (connect (mkManager [] ∅) 1%nat (Some 7) (Some "driver"))
                   2%nat (Some 8) (Some "driver") in
  active_connections m = [1%nat; 2%nat] ∧
  send_to_driver calm m 7 [("type", JStr "new_booking")] =
    [mkFrame 1%nat [("type", JStr "new_booking")] true] ∧
  send_to_driver calm m 9 [("type", JStr "new_booking")] = [].
Proof. split_and!; vm_compute; reflexivity. Qed.

(** C9: a broadcast hands the message to every connection subscribed when
    the pass starts, once each, whether or not sends to the others fail;
    the connections whose send failed, and only those, are then dropped from
    the broadcast list, and the driver index loses exactly the entries that
    point to them.  A message for driver [d] goes to the connection
    registered for [d] and nowhere else, and to nobody when [d] has none. *)
Theorem broadcast_and_targeted_delivery env m message :
  let r := broadcast env m message in
  to <$> r.2 = active_connections m ∧
  (∀ c, c ∈ active_connections m →
        mkFrame c message (peer_up env c) ∈ r.2) ∧
  (∀ f, f ∈ r.2 → payload f = message ∧ delivered f = peer_up env (to f)) ∧
  active_connections r.1 = filter (λ c, peer_up env c = true) (active_connections m) ∧
  (∀ d ws, driver_connections r.1 !! d = Some ws ↔
           driver_connections m !! d = Some ws ∧
           ¬ (ws ∈ active_connections m ∧ peer_up env ws = false)) ∧
  (∀ d f, f ∈ send_to_driver env m d message →
          driver_connections m !! d = Some (to f) ∧ payload f = message) ∧
  (∀ d ws, driver_connections m !! d = Some ws →
           send_to_driver env m d message = [mkFrame ws message (peer_up env ws)]) ∧
  (∀ d, driver_connections m !! d = None → send_to_driver env m d message = []).
Proof.
  unfold broadcast. rewrite fan_out_spec. simpl. split_and!.
  - rewrite <- list_fmap_compose. simpl. apply list_fmap_id.
  - intros c Hc. apply list_elem_of_fmap. by exists c.
  - intros f Hf. apply list_elem_of_fmap in Hf as (c & -> & _). done.
  - rewrite disconnect_all_active.
    apply (strike_dead (peer_up env) [] (active_connections m)). constructor.
  - intros d ws. rewrite disconnect_all_drivers, list_elem_of_filter. naive_solver.
  - intros d f. unfold send_to_driver.
    destruct (driver_connections m !! d) as [ws|]; [|by intros ?%elem_of_nil].
    intros ->%list_elem_of_singleton. done.
  - intros d ws Hd. unfold send_to_driver. by rewrite Hd.
  - intros d Hd. unfold send_to_driver. by rewrite Hd.
Qed.

(** *** Dispatch *)

Lemma elem_of_available_pairs db d n v :
  (d, n, v) ∈ available_pairs db ↔
  ∃ u vh rid r,
    users db !! d = Some u ∧ vehicles db !! v = Some vh ∧ roles db !! rid = Some r ∧
    n = User.name u ∧
    Vehicle.driver_id vh = Some d ∧ User.role_id u = rid ∧ Role.name r = "driver" ∧
    User.status u = user_active ∧ Vehicle.status vh = available.
Proof.
  unfold available_pairs. rewrite list_elem_of_bind. split.
  - intros ([uid u] & Hin & Hu). apply list_elem_of_bind in Hin as ([vid vh] & Hin & Hv).
    apply list_elem_of_bind in Hin as ([rid r] & Hin & Hr).
    apply elem_of_map_to_list in Hu, Hv, Hr.
    case_decide as Hc; [|by apply elem_of_nil in Hin].
    apply list_elem_of_singleton in Hin as [= -> -> ->].
    exists u, vh, rid, r. naive_solver.
  - intros (u & vh & rid & r & Hu & Hv & Hr & -> & Hc).
    exists (d, u). split; [|by apply elem_of_map_to_list].
    apply list_elem_of_bind. exists (v, vh). split; [|by apply elem_of_map_to_list].
    apply list_elem_of_bind. exists (rid, r). split; [|by apply elem_of_map_to_list].
    rewrite decide_True by naive_solver. by apply list_elem_of_singleton.
Qed.

Lemma find_available_pair_eligible db d n v :
  find_available_pair db = Some (d, n, v) → eligible_pair db d v.
Proof.
  intros H%head_Some_elem_of. apply elem_of_available_pairs in H.
  destruct H as (u & vh & rid & r & ?). exists u, vh, rid, r. naive_solver.
Qed.


Lemma find_available_pair_set_bookings f db :
  find_available_pair (set_bookings f db) = find_available_pair db.
Proof. reflexivity. Qed.

(** *** Booking creation *)

(** The row [create_booking] inserts, and what it logs. *)
Lemma create_booking_fresh_code env booking user_id ip today now log_now w :
  size (select_active_locations (BookingRequest.from_location_id booking)
          (BookingRequest.to_location_id booking) (database w)) = 2%nat →
  let code := "SHU" +:+ today +:+ upper (token_hex env (draws w)) in
  let bid := next_rowid (bookings (database w)) in
  let row := Booking.mk code user_id (BookingRequest.from_location_id booking)
               (BookingRequest.to_location_id booking) pending None None
               (BookingRequest.notes booking) (BookingRequest.passenger_count booking)
               now None None None None None None None in
  let entry := Audit.mk user_id "create" "booking" (Some bid) None (Some code) ip log_now in
  ¬ map_Exists (λ _ b, Booking.booking_code b = code) (bookings (database w)) →
  create_booking env booking user_id ip today now log_now w =
    match find_available_pair (database w) with
    | Some (d, _, v) =>
        (inr (Created.mk true bid code "accepted" "Booking berhasil dibuat"),
         mkWorld
           (add_audit entry
              (add_notification
                 (Notification.mk d "Booking Baru" ("Booking baru #" +:+ code)
                    "booking" "high" now)
                 (set_bookings (λ _, <[bid := set_accepted d v now row]> (bookings (database w)))
                    (database w))))
           (manager w)
           (wire w ++ send_to_driver env (manager w) d
              [("type", JStr "new_booking"); ("booking_id", JInt bid);
               ("booking_code", JStr code)])
           (S (draws w)))
    | None =>
        (inr (Created.mk true bid code "pending" "Booking berhasil dibuat"),
         mkWorld (add_audit entry (set_bookings (insert bid row) (database w)))
           (manager w) (wire w) (S (draws w)))
    end.
Proof.
  intros Hsz code bid row entry Hfresh. unfold create_booking. run.
  rewrite decide_False by (intros Hne; by apply Hne).
  simpl. rewrite decide_False by done. simpl.
  rewrite find_available_pair_set_bookings.
  destruct (find_available_pair (database w)) as [[[d n] v]|]; simpl; [|done].
  do 3 f_equal. unfold set_bookings, add_audit, add_notification. simpl.
  do 2 f_equal. apply map_eq. intros i. destruct (decide (i = bid)) as [->|Hne].
  - by rewrite lookup_alter_eq, !lookup_insert_eq.
  - by rewrite lookup_alter_ne, !lookup_insert_ne.
Qed.

Lemma create_booking_bad_locations env booking user_id ip today now log_now w :
  size (select_active_locations (BookingRequest.from_location_id booking)
          (BookingRequest.to_location_id booking) (database w)) ≠ 2%nat →
  create_booking env booking user_id ip today now log_now w =
    (inl (HTTPException 404 "Invalid or inactive location"), w).
Proof.
  intros Hsz. unfold create_booking. run. rewrite decide_True by done. by destruct w.
Qed.

Lemma create_booking_taken_code env booking user_id ip today now log_now w :
  size (select_active_locations (BookingRequest.from_location_id booking)
          (BookingRequest.to_location_id booking) (database w)) = 2%nat →
  map_Exists
    (λ _ b, Booking.booking_code b = "SHU" +:+ today +:+ upper (token_hex env (draws w)))
    (bookings (database w)) →
  create_booking env booking user_id ip today now log_now w =
    (inl (IntegrityError "UNIQUE constraint failed: bookings.booking_code"),
     mkWorld (database w) (manager w) (wire w) (S (draws w))).
Proof.
  intros Hsz Htaken. unfold create_booking. run.
  rewrite decide_False by (intros Hn; by apply Hn).
  simpl. by rewrite decide_True by done.
Qed.







(** *** Driver transitions: what an accepted request writes *)

Lemma select_vehicle_of_set_bookings f d db :
  select_vehicle_of d (set_bookings f db) = select_vehicle_of d db.
Proof. reflexivity. Qed.

Lemma select_vehicle_of_Some d db vid :
  select_vehicle_of d db = Some vid →
  ∃ vh, vehicles db !! vid = Some vh ∧ Vehicle.driver_id vh = Some d.
Proof.
  unfold select_vehicle_of. intros H%head_Some_elem_of.
  apply list_elem_of_fmap in H as ([k vh] & -> & Hin).
  apply list_elem_of_filter in Hin as [Hd Hin]. apply elem_of_map_to_list in Hin.
  by exists vh.
Qed.

Lemma select_vehicle_of_is_Some d db vid vh :
  vehicles db !! vid = Some vh → Vehicle.driver_id vh = Some d →
  is_Some (select_vehicle_of d db).
Proof.
  intros Hv Hd. unfold select_vehicle_of.
  assert ((vid, vh) ∈ filter (λ kv : Z * Vehicle.t, Vehicle.driver_id kv.2 = Some d)
                             (map_to_list (vehicles db))) as Hin
    by (apply list_elem_of_filter; split; [done | by apply elem_of_map_to_list]).
  destruct (filter _ (map_to_list (vehicles db))) as [|kv l]; [by apply elem_of_nil in Hin|].
  simpl. eauto.
Qed.

Lemma select_booking_of_driver_Some booking_id d db bk :
  bookings db !! booking_id = Some bk → Booking.driver_id bk = Some d →
  select_booking_of_driver booking_id d db = Some bk.
Proof. intros Hb Hd. unfold select_booking_of_driver. rewrite Hb. by rewrite decide_True. Qed.

Lemma update_to_driver_arriving booking_id bk d ip now log_now w :
  select_booking_of_driver booking_id d (database w) = Some bk →
  update_booking_status booking_id "driver_arriving" d ip now log_now w =
    (inr (Updated.mk true "driver_arriving"),
     mkWorld
       (add_audit
          (Audit.mk d "status_update" "booking" (Some booking_id)
             (Some (status_text (Booking.status bk))) (Some "driver_arriving") ip log_now)
          (set_bookings (alter (set_driver_arriving now) booking_id) (database w)))
       (manager w) (wire w) (draws w)).
Proof. intros Hsel. unfold update_booking_status. run. by rewrite Hsel. Qed.

Lemma update_to_ongoing booking_id bk d vid ip now log_now w :
  select_booking_of_driver booking_id d (database w) = Some bk →
  select_vehicle_of d (database w) = Some vid →
  ¬ map_Exists (λ _ t, Trip.booking_id t = Some booking_id) (trips (database w)) →
  update_booking_status booking_id "ongoing" d ip now log_now w =
    (inr (Updated.mk true "ongoing"),
     mkWorld
       (add_audit
          (Audit.mk d "status_update" "booking" (Some booking_id)
             (Some (status_text (Booking.status bk))) (Some "ongoing") ip log_now)
          (set_trips
             (insert (next_rowid (trips (database w)))
                (Trip.mk (Some booking_id) d vid now None trip_ongoing now))
             (set_bookings (alter (set_ongoing now) booking_id) (database w))))
       (manager w) (wire w) (draws w)).
Proof.
  intros Hsel Hv Hno. unfold update_booking_status. run. rewrite Hsel. simpl.
  rewrite select_vehicle_of_set_bookings, Hv. simpl.
  by rewrite decide_False by done.
Qed.

Lemma update_to_ongoing_twice booking_id bk d vid ip now log_now w :
  select_booking_of_driver booking_id d (database w) = Some bk →
  select_vehicle_of d (database w) = Some vid →
  map_Exists (λ _ t, Trip.booking_id t = Some booking_id) (trips (database w)) →
  update_booking_status booking_id "ongoing" d ip now log_now w =
    (inl (IntegrityError "UNIQUE constraint failed: trips.booking_id"), w).
Proof.
  intros Hsel Hv Hno. unfold update_booking_status. run. rewrite Hsel. simpl.
  rewrite select_vehicle_of_set_bookings, Hv. simpl.
  rewrite decide_True by done. by destruct w.
Qed.

Lemma update_to_completed booking_id bk d ip now log_now w :
  select_booking_of_driver booking_id d (database w) = Some bk →
  update_booking_status booking_id "completed" d ip now log_now w =
    (inr (Updated.mk true "completed"),
     mkWorld
       (add_audit
          (Audit.mk d "status_update" "booking" (Some booking_id)
             (Some (status_text (Booking.status bk))) (Some "completed") ip log_now)
          (set_trips (fmap (close_trip now booking_id d))
             (set_bookings (alter (set_completed now) booking_id) (database w))))
       (manager w) (wire w) (draws w)).
Proof. intros Hsel. unfold update_booking_status. run. by rewrite Hsel. Qed.

(** C2 (as the code has it): nothing limits a driver to one ongoing trip.
    Whenever a driver who has a vehicle asks for 'ongoing' on a booking
    assigned to them that has no trip yet, the request succeeds and the
    driver's ongoing trips grow by one, however many there were. *)
Theorem update_to_ongoing_adds_a_trip booking_id bk d vid vh ip now log_now w :
  bookings (database w) !! booking_id = Some bk →
  Booking.driver_id bk = Some d →
  vehicles (database w) !! vid = Some vh → Vehicle.driver_id vh = Some d →
  ¬ map_Exists (λ _ t, Trip.booking_id t = Some booking_id) (trips (database w)) →
  ∃ w',
    update_booking_status booking_id "ongoing" d ip now log_now w =
      (inr (Updated.mk true "ongoing"), w') ∧
    size (ongoing_trips_of d (database w')) = S (size (ongoing_trips_of d (database w))).
Proof.
  intros Hb Hd Hv Hvd Hno.
  destruct (select_vehicle_of_is_Some d (database w) vid vh Hv Hvd) as [vid' Hsel].
  rewrite (update_to_ongoing booking_id bk d vid' ip now log_now w
             (select_booking_of_driver_Some _ _ _ _ Hb Hd) Hsel Hno).
  eexists. split; [done|]. unfold ongoing_trips_of. simpl.
  rewrite map_filter_insert_True by done.
  rewrite map_size_insert_None; [done|].
  apply map_lookup_filter_None. left. apply next_rowid_fresh.
Qed.

Lemma update_to_ongoing_adds_a_trip_witness :
  ∃ w', update_booking_status 2 "ongoing" 2 None "09:20" "09:20" booked_again =
          (inr (Updated.mk true "ongoing"), w') ∧
        size (ongoing_trips_of 2 (database w')) =
          S (size (ongoing_trips_of 2 (database booked_again))).
Proof.
  eapply (update_to_ongoing_adds_a_trip 2 _ 2 1 _ None "09:20" "09:20" booked_again).
  - vm_compute. reflexivity.
  - reflexivity.
  - vm_compute. reflexivity.
  - reflexivity.
  - apply (bool_decide_eq_false_1 _). vm_compute. reflexivity.
Defined.

(** C2, the claim as written fails: driver 2 has an ongoing trip (booking 1)
    and drives booking 2 into 'ongoing'; the request succeeds and the driver
    now has two ongoing trips. *)
Lemma driver_with_two_ongoing_trips :
  size (ongoing_trips_of 2 (database booked_again)) = 1%nat ∧
  (update_booking_status 2 "ongoing" 2 None "09:20" "09:20" booked_again).1 =
    inr (Updated.mk true "ongoing") ∧
  size (ongoing_trips_of 2
          (database (update_booking_status 2 "ongoing" 2 None "09:20" "09:20"
                       booked_again).2)) = 2%nat.
Proof. split_and!; vm_compute; reflexivity. Qed.

Lemma close_trip_other now booking_id d (m : gmap Z Trip.t) :
  ¬ map_Exists (λ _ t, Trip.booking_id t = Some booking_id) m →
  close_trip now booking_id d <$> m = m.
Proof.
  intros Hno. apply map_eq. intros i. rewrite lookup_fmap.
  destruct (m !! i) as [t|] eqn:E; [|done]. simpl. f_equal.
  unfold close_trip. rewrite decide_False; [done|].
  intros [Hb _]. apply Hno. by exists i, t.
Qed.

(** C8: a booking assigned to a driver who has a vehicle, and with no trip
    yet, is taken by that driver through 'driver_arriving', 'ongoing' and
    'completed'.  All three requests succeed.  Going 'ongoing' at [t2]
    inserts one trip for the booking and the driver, started at [t2], open
    and 'ongoing'; going 'completed' at [t3] closes exactly that trip: its end
    time is [t3] and its status 'completed', and no other trip changes. *)
Theorem trip_opened_then_closed booking_id bk d vid vh ip t1 l1 t2 l2 t3 l3 w :
  bookings (database w) !! booking_id = Some bk →
  Booking.driver_id bk = Some d →
  vehicles (database w) !! vid = Some vh → Vehicle.driver_id vh = Some d →
  ¬ map_Exists (λ _ t, Trip.booking_id t = Some booking_id) (trips (database w)) →
  ∃ w1 w2 w3 tid vid',
    update_booking_status booking_id "driver_arriving" d ip t1 l1 w =
      (inr (Updated.mk true "driver_arriving"), w1) ∧
    update_booking_status booking_id "ongoing" d ip t2 l2 w1 =
      (inr (Updated.mk true "ongoing"), w2) ∧
    update_booking_status booking_id "completed" d ip t3 l3 w2 =
      (inr (Updated.mk true "completed"), w3) ∧
    Booking.status <$> bookings (database w1) !! booking_id = Some driver_arriving ∧
    Booking.status <$> bookings (database w2) !! booking_id = Some ongoing ∧
    Booking.status <$> bookings (database w3) !! booking_id = Some completed ∧
    (∃ vh', vehicles (database w) !! vid' = Some vh' ∧ Vehicle.driver_id vh' = Some d) ∧
    trips (database w) !! tid = None ∧
    trips (database w1) = trips (database w) ∧
    trips (database w2) =
      <[tid := Trip.mk (Some booking_id) d vid' t2 None trip_ongoing t2]>
        (trips (database w)) ∧
    trips (database w3) =
      <[tid := Trip.mk (Some booking_id) d vid' t2 (Some t3) trip_completed t2]>
        (trips (database w)).
Proof.
  intros Hb Hd Hv Hvd Hno.
  destruct (select_vehicle_of_is_Some d (database w) vid vh Hv Hvd) as [vid' Hsel].
  pose proof (select_booking_of_driver_Some _ _ _ _ Hb Hd) as Hs0.
  rewrite (update_to_driver_arriving _ _ _ ip t1 l1 _ Hs0).
  eexists _, _, _, (next_rowid (trips (database w))), vid'.
  split; [done|].
  match goal with |- update_booking_status _ _ _ _ _ _ ?w1 = _ ∧ _ =>
    assert (select_booking_of_driver booking_id d (database w1)
            = Some (set_driver_arriving t1 bk)) as Hs1
      by (apply select_booking_of_driver_Some; [simpl; by rewrite lookup_alter_eq, Hb | done]);
    rewrite (update_to_ongoing _ _ _ vid' ip t2 l2 w1 Hs1 Hsel Hno)
  end.
  split; [done|].
  match goal with |- update_booking_status _ _ _ _ _ _ ?w2 = _ ∧ _ =>
    assert (select_booking_of_driver booking_id d (database w2)
            = Some (set_ongoing t2 (set_driver_arriving t1 bk))) as Hs2
      by (apply select_booking_of_driver_Some;
          [simpl; by rewrite !lookup_alter_eq, Hb | done]);
    rewrite (update_to_completed _ _ _ ip t3 l3 w2 Hs2)
  end.
  split; [done|]. simpl.
  rewrite !lookup_alter_eq, Hb. simpl.
  split_and!; try done.
  - apply select_vehicle_of_Some in Hsel. done.
  - apply next_rowid_fresh.
  - rewrite fmap_insert, close_trip_other by done.
    unfold close_trip. simpl. by rewrite decide_True.
Qed.

Lemma trip_opened_then_closed_witness :
  ∃ w1 w2 w3 tid,
    update_booking_status 1 "driver_arriving" 2 None "09:05" "09:05" booked =
      (inr (Updated.mk true "driver_arriving"), w1) ∧
    update_booking_status 1 "ongoing" 2 None "09:10" "09:10" w1 =
      (inr (Updated.mk true "ongoing"), w2) ∧
    update_booking_status 1 "completed" 2 None "09:30" "09:30" w2 =
      (inr (Updated.mk true "completed"), w3) ∧
    Trip.end_time <$> trips (database w3) !! tid = Some (Some "09:30").
Proof.
  destruct (trip_opened_then_closed 1
              (set_accepted 2 1 "09:00"
                 (Booking.mk "SHU20250101ABCDEF" 4 1 2 pending None None None 1 "09:00"
                    None None None None None None None))
              2 1 (Vehicle.mk "L 1234 AB" 14 available (Some 2)) None
              "09:05" "09:05" "09:10" "09:10" "09:30" "09:30" booked)
    as (w1 & w2 & w3 & tid & vid' & H1 & H2 & H3 & _ & _ & _ & _ & _ & _ & _ & H).
  - vm_compute. reflexivity.
  - reflexivity.
  - vm_compute. reflexivity.
  - reflexivity.
  - apply (bool_decide_eq_false_1 _). vm_compute. reflexivity.
  - exists w1, w2, w3, tid. split_and!; try done.
    rewrite H, lookup_insert_eq. done.
Defined.

(** *** What the handlers leave in the bookings table *)

Lemma create_booking_bookings env booking user_id ip today now log_now w :
  let w' := (create_booking env booking user_id ip today now log_now w).2 in
  vehicles (database w') = vehicles (database w) ∧
  (bookings (database w') = bookings (database w) ∨
   ∃ row,
     bookings (database w) !! next_rowid (bookings (database w)) = None ∧
     bookings (database w') =
       <[next_rowid (bookings (database w)) := row]> (bookings (database w)) ∧
     ((Booking.status row = pending ∧ Booking.driver_id row = None ∧
       Booking.vehicle_id row = None) ∨
      (∃ d v, eligible_pair (database w) d v ∧ Booking.status row = accepted ∧
              Booking.driver_id row = Some d ∧ Booking.vehicle_id row = Some v))).
Proof.
  destruct (decide (size (select_active_locations (BookingRequest.from_location_id booking)
              (BookingRequest.to_location_id booking) (database w)) = 2%nat)) as [Hsz|Hsz].
  2: { rewrite create_booking_bad_locations by done. simpl. auto. }
  destruct (decide (map_Exists
    (λ _ b, Booking.booking_code b = "SHU" +:+ today +:+ upper (token_hex env (draws w)))
    (bookings (database w)))) as [Ht|Ht].
  { rewrite create_booking_taken_code by done. simpl. auto. }
  rewrite (create_booking_fresh_code _ _ _ _ _ _ _ _ Hsz Ht).
  destruct (find_available_pair (database w)) as [[[d n] v]|] eqn:Hpair; simpl.
  - split; [done|]. right. eexists. split; [apply next_rowid_fresh|]. split; [done|].
    right. exists d, v. split; [by eapply find_available_pair_eligible | done].
  - split; [done|]. right. eexists. split; [apply next_rowid_fresh|]. split; [done|].
    left. done.
Qed.

Lemma cancel_booking_bookings booking_id user_id ip now log_now w :
  let w' := (cancel_booking booking_id user_id ip now log_now w).2 in
  vehicles (database w') = vehicles (database w) ∧
  (bookings (database w') = bookings (database w) ∨
   bookings (database w') =
     alter (set_cancelled now user_id) booking_id (bookings (database w))).
Proof.
  unfold cancel_booking. run.
  destruct (select_booking_of_user booking_id user_id (database w)) as [bk|]; simpl; [|auto].
  case_decide; simpl; auto.
Qed.

Lemma update_booking_status_bookings booking_id status user_id ip now log_now w :
  let w' := (update_booking_status booking_id status user_id ip now log_now w).2 in
  vehicles (database w') = vehicles (database w) ∧
  (bookings (database w') = bookings (database w) ∨
   ∃ bk f,
     bookings (database w) !! booking_id = Some bk ∧
     Booking.driver_id bk = Some user_id ∧
     f ∈ [set_driver_arriving now; set_ongoing now; set_completed now] ∧
     bookings (database w') = alter f booking_id (bookings (database w))).
Proof.
  unfold update_booking_status. run.
  destruct (select_booking_of_driver booking_id user_id (database w)) as [bk|] eqn:Hsel;
    simpl; [|auto].
  assert (bookings (database w) !! booking_id = Some bk ∧
          Booking.driver_id bk = Some user_id) as [Hb Hd].
  { unfold select_booking_of_driver in Hsel.
    destruct (bookings (database w) !! booking_id) as [b|]; [|done].
    case_decide; by simplify_eq. }
  repeat case_decide; simpl.
  - split; [done|]. right. exists bk, (set_driver_arriving now). set_solver.
  - rewrite select_vehicle_of_set_bookings.
    destruct (select_vehicle_of user_id (database w)) as [vid|]; simpl.
    + case_decide; simpl; [auto|].
      split; [done|]. right. exists bk, (set_ongoing now). set_solver.
    + split; [done|]. right. exists bk, (set_ongoing now). set_solver.
  - split; [done|]. right. exists bk, (set_completed now). set_solver.
  - auto.
Qed.

Lemma assigned_status_cases s :
  assigned_status s ↔ s = accepted ∨ s = driver_arriving ∨ s = ongoing ∨ s = completed.
Proof. unfold assigned_status. set_solver. Qed.

(** C4 (as the code has it): every request keeps this much of I1: a booking
    that is accepted, driver_arriving, ongoing or completed has a driver and
    a vehicle, a pending booking has neither, and the two fields are set or
    null together.  (A cancelled booking keeps the driver and vehicle it
    had.) *)
Theorem serve_keeps_I1_kept env r w :
  I1_kept (database w) → I1_kept (database (serve env r w)).
Proof.
  unfold I1_kept. intros Hinv.
  destruct r as [booking u ip today now l | b u ip now l | b s u ip now l]; simpl.
  - destruct (create_booking_bookings env booking u ip today now l w) as [_ [Hsame|H]].
    { by rewrite Hsame. }
    destruct H as (row & Hfresh & Hnew & Hrow). rewrite Hnew. intros i bk Hi.
    destruct (decide (i = next_rowid (bookings (database w)))) as [->|Hne].
    + rewrite lookup_insert_eq in Hi. simplify_eq. rewrite assigned_status_cases.
      destruct Hrow as [(-> & -> & ->)|(d & v & _ & -> & -> & ->)];
        split_and!; try done; try naive_solver.
    + rewrite lookup_insert_ne in Hi by done. by apply (Hinv i).
  - destruct (cancel_booking_bookings b u ip now l w) as [_ [Hsame|Hnew]].
    { by rewrite Hsame. }
    rewrite Hnew. intros i bk Hi. destruct (decide (i = b)) as [->|Hne].
    + rewrite lookup_alter_eq in Hi.
      destruct (bookings (database w) !! b) as [bk0|] eqn:Hb; [|done].
      simpl in Hi. simplify_eq. simpl. rewrite assigned_status_cases.
      destruct (Hinv b bk0 Hb) as (_ & _ & Hboth). naive_solver.
    + rewrite lookup_alter_ne in Hi by done. by apply (Hinv i).
  - destruct (update_booking_status_bookings b s u ip now l w) as [_ [Hsame|H]].
    { by rewrite Hsame. }
    destruct H as (bk0 & f & Hb & Hd & Hf & Hnew). rewrite Hnew. intros i bk Hi.
    destruct (decide (i = b)) as [->|Hne].
    + rewrite lookup_alter_eq, Hb in Hi. simpl in Hi. simplify_eq.
      destruct (Hinv b bk0 Hb) as (_ & _ & Hboth).
      assert (is_Some (Booking.vehicle_id bk0)) as Hv by (apply Hboth; by rewrite Hd).
      assert (is_Some (Booking.driver_id bk0)) as Hdr by (by rewrite Hd).
      repeat (apply elem_of_cons in Hf as [->|Hf]); [..|by apply elem_of_nil in Hf];
        simpl; split_and!; done.
    + rewrite lookup_alter_ne in Hi by done. by apply (Hinv i).
Qed.

Lemma serve_keeps_I1_kept_witness :
  I1_kept (database (serve calm (CancelBooking 1 4 None "09:02" "09:02")
                       (serve calm (CreateBooking ride_1_to_2 4 None "20250101" "09:00" "09:00")
                          (boot one_van)))).
Proof.
  apply serve_keeps_I1_kept. apply serve_keeps_I1_kept.
  intros i bk Hi. simpl in Hi. by rewrite lookup_empty in Hi.
Defined.

(** C4, the claim as written fails: booking 1 is accepted with driver 2 and
    vehicle 1 and I1 holds; its rider cancels it; the booking is then
    'cancelled' and still names driver 2 and vehicle 1, so I1 is broken. *)
Lemma cancelled_booking_keeps_its_driver :
  I1 (database booked) ∧
  Booking.status <$> bookings (database booked) !! 1 = Some accepted ∧
  (cancel_booking 1 4 None "09:02" "09:02" booked).1 =
    inr (Cancelled.mk true "Booking cancelled") ∧
  Booking.status <$>
    bookings (database (cancel_booking 1 4 None "09:02" "09:02" booked).2) !! 1 =
    Some cancelled ∧
  Booking.driver_id <$>
    bookings (database (cancel_booking 1 4 None "09:02" "09:02" booked).2) !! 1 =
    Some (Some 2) ∧
  Booking.vehicle_id <$>
    bookings (database (cancel_booking 1 4 None "09:02" "09:02" booked).2) !! 1 =
    Some (Some 1) ∧
  ¬ I1 (database (cancel_booking 1 4 None "09:02" "09:02" booked).2).
Proof.
  split_and!; try (vm_compute; reflexivity).
  - intros i bk Hi.
    assert (bookings (database booked) =
            {[1 := set_accepted 2 1 "09:00"
                     (Booking.mk "SHU20250101ABCDEF" 4 1 2 pending None None None 1 "09:00"
                        None None None None None None None)]}) as Hall
      by (vm_compute; reflexivity).
    rewrite Hall in Hi. apply lookup_singleton_Some in Hi as [<- <-].
    simpl. rewrite assigned_status_cases. split; (split; [auto | eauto]).
  - intros HI1.
    destruct (HI1 1 (set_cancelled "09:02" 4
                       (set_accepted 2 1 "09:00"
                          (Booking.mk "SHU20250101ABCDEF" 4 1 2 pending None None None 1
                             "09:00" None None None None None None None))))
      as [Hd _]; [vm_compute; reflexivity|].
    simpl in Hd. rewrite assigned_status_cases in Hd.
    destruct Hd as [Hd _]. destruct Hd as [|[|[|]]]; [eauto | done..].
Qed.

(** *** Dispatch keeps its promise to the trip recorder *)

(** No request writes the vehicles table, and dispatch assigns a driver
    together with a vehicle of that driver: so every driver a booking names
    has a vehicle, which is what opening a trip looks up. *)
Lemma serve_keeps_drivers_have_vehicles env r w :
  drivers_have_vehicles (database w) → drivers_have_vehicles (database (serve env r w)).
Proof.
  unfold drivers_have_vehicles. intros Hinv.
  destruct r as [booking u ip today now l | b u ip now l | b s u ip now l]; simpl.
  - destruct (create_booking_bookings env booking u ip today now l w) as [Hveh [Hsame|H]];
      rewrite Hveh.
    { by rewrite Hsame. }
    destruct H as (row & Hfresh & Hnew & Hrow). rewrite Hnew. intros i bk d Hi Hd.
    destruct (decide (i = next_rowid (bookings (database w)))) as [->|Hne].
    + rewrite lookup_insert_eq in Hi. simplify_eq.
      destruct Hrow as [(_ & Hnone & _)|(d' & v & Hel & _ & Hsome & _)]; [congruence|].
      destruct Hel as (_ & vh & _ & _ & _ & Hv & _ & Hvd & _).
      exists v, vh. split; [done | congruence].
    + rewrite lookup_insert_ne in Hi by done. by apply (Hinv i bk).
  - destruct (cancel_booking_bookings b u ip now l w) as [Hveh [Hsame|Hnew]]; rewrite Hveh.
    { by rewrite Hsame. }
    rewrite Hnew. intros i bk d Hi Hd. destruct (decide (i = b)) as [->|Hne].
    + rewrite lookup_alter_eq in Hi.
      destruct (bookings (database w) !! b) as [bk0|] eqn:Hb; [|done].
      simpl in Hi. simplify_eq. by apply (Hinv b bk0).
    + rewrite lookup_alter_ne in Hi by done. by apply (Hinv i bk).
  - destruct (update_booking_status_bookings b s u ip now l w) as [Hveh [Hsame|H]];
      rewrite Hveh.
    { by rewrite Hsame. }
    destruct H as (bk0 & f & Hb & Hd0 & Hf & Hnew). rewrite Hnew. intros i bk d Hi Hd.
    destruct (decide (i = b)) as [->|Hne].
    + rewrite lookup_alter_eq, Hb in Hi. simpl in Hi. simplify_eq.
      apply (Hinv b bk0); [done|].
      repeat (apply elem_of_cons in Hf as [->|Hf]); [..|by apply elem_of_nil in Hf]; done.
    + rewrite lookup_alter_ne in Hi by done. by apply (Hinv i bk).
Qed.

(** From a database with no booking yet, whatever requests are served. *)
Lemma run_keeps_drivers_have_vehicles env rs db :
  bookings db = ∅ →
  drivers_have_vehicles (database (foldl (λ w r, serve env r w) (boot db) rs)).
Proof.
  intros Hempty.
  assert (drivers_have_vehicles (database (boot db))) as H0.
  { intros i bk d Hi. simpl in Hi. by rewrite Hempty, lookup_empty in Hi. }
  revert H0. generalize (boot db). induction rs as [|r rs IH]; intros w H; [done|].
  simpl. apply IH. by apply serve_keeps_drivers_have_vehicles.
Qed.

(** * Properties of the rest of the service *)

(** ** What every booking request does *)

Lemma update_to_ongoing_without_vehicle booking_id bk d ip now log_now w :
  select_booking_of_driver booking_id d (database w) = Some bk →
  select_vehicle_of d (database w) = None →
  update_booking_status booking_id "ongoing" d ip now log_now w =
    (inr (Updated.mk true "ongoing"),
     mkWorld
       (add_audit
          (Audit.mk d "status_update" "booking" (Some booking_id)
             (Some (status_text (Booking.status bk))) (Some "ongoing") ip log_now)
          (set_bookings (alter (set_ongoing now) booking_id) (database w)))
       (manager w) (wire w) (draws w)).
Proof.
  intros Hsel Hv. unfold update_booking_status. run. rewrite Hsel. simpl.
  by rewrite select_vehicle_of_set_bookings, Hv.
Qed.

Lemma select_booking_of_driver_inv booking_id d db bk :
  select_booking_of_driver booking_id d db = Some bk →
  bookings db !! booking_id = Some bk ∧ Booking.driver_id bk = Some d.
Proof.
  unfold select_booking_of_driver. destruct (bookings db !! booking_id) as [b|]; [|done].
  case_decide; naive_solver.
Qed.

(** The outcomes of [update_booking_status]: refused with the world as it
    was, or one of four writes. *)
Lemma update_booking_status_effect booking_id status d ip now log_now w :
  let r := update_booking_status booking_id status d ip now log_now w in
  (∃ x, r = (inl x, w)) ∨
  ∃ bk db',
    bookings (database w) !! booking_id = Some bk ∧ Booking.driver_id bk = Some d ∧
    r = (inr (Updated.mk true status),
         mkWorld
           (add_audit
              (Audit.mk d "status_update" "booking" (Some booking_id)
                 (Some (status_text (Booking.status bk))) (Some status) ip log_now) db')
           (manager w) (wire w) (draws w)) ∧
    ((status = "driver_arriving" ∧
      db' = set_bookings (alter (set_driver_arriving now) booking_id) (database w)) ∨
     (status = "ongoing" ∧ select_vehicle_of d (database w) = None ∧
      db' = set_bookings (alter (set_ongoing now) booking_id) (database w)) ∨
     (status = "ongoing" ∧
      ¬ map_Exists (λ _ t, Trip.booking_id t = Some booking_id) (trips (database w)) ∧
      ∃ vid, select_vehicle_of d (database w) = Some vid ∧
        db' = set_trips
                (insert (next_rowid (trips (database w)))
                   (Trip.mk (Some booking_id) d vid now None trip_ongoing now))
                (set_bookings (alter (set_ongoing now) booking_id) (database w))) ∨
     (status = "completed" ∧
      db' = set_trips (fmap (close_trip now booking_id d))
              (set_bookings (alter (set_completed now) booking_id) (database w)))).
Proof.
  simpl.
  destruct (select_booking_of_driver booking_id d (database w)) as [bk|] eqn:Hsel.
  2: { left. eexists. by apply update_booking_status_not_assigned. }
  destruct (select_booking_of_driver_inv _ _ _ _ Hsel) as [Hb Hd].
  destruct (decide (status = "driver_arriving")) as [->|H1].
  { right. eexists bk, _. rewrite (update_to_driver_arriving _ _ _ _ _ _ _ Hsel).
    split_and!; [done..|]. left. done. }
  destruct (decide (status = "ongoing")) as [->|H2].
  { destruct (select_vehicle_of d (database w)) as [vid|] eqn:Hv.
    - destruct (decide (map_Exists (λ _ t, Trip.booking_id t = Some booking_id)
                          (trips (database w)))) as [He|He].
      + left. eexists. by eapply update_to_ongoing_twice.
      + right. eexists bk, _. rewrite (update_to_ongoing _ _ _ _ _ _ _ _ Hsel Hv He).
        split_and!; [done..|]. right. right. left. eauto.
    - right. eexists bk, _.
      rewrite (update_to_ongoing_without_vehicle _ _ _ _ _ _ _ Hsel Hv).
      split_and!; [done..|]. right. left. done. }
  destruct (decide (status = "completed")) as [->|H3].
  { right. eexists bk, _. rewrite (update_to_completed _ _ _ _ _ _ _ Hsel).
    split_and!; [done..|]. right. right. right. done. }
  left. eexists. apply update_booking_status_unknown_target; [by rewrite Hsel | set_solver].
Qed.

Lemma cancel_booking_effect booking_id u ip now log_now w :
  let r := cancel_booking booking_id u ip now log_now w in
  (∃ x, r = (inl x, w)) ∨
  ∃ bk,
    bookings (database w) !! booking_id = Some bk ∧ Booking.user_id bk = u ∧
    Booking.status bk ∈ [pending; accepted] ∧
    r = (inr (Cancelled.mk true "Booking cancelled"),
         mkWorld
           (add_audit
              (Audit.mk u "cancel" "booking" (Some booking_id)
                 (Some (status_text (Booking.status bk))) (Some "cancelled") ip log_now)
              (set_bookings (alter (set_cancelled now u) booking_id) (database w)))
           (manager w) (wire w) (draws w)).
Proof.
  unfold cancel_booking, select_booking_of_user. run.
  destruct (bookings (database w) !! booking_id) as [bk|] eqn:Hb; simpl.
  2: { left. eexists. by destruct w. }
  destruct (decide (Booking.user_id bk = u)) as [Hu|Hu]; simpl.
  2: { left. eexists. by destruct w. }
  destruct (decide (Booking.status bk ∉ [pending; accepted])) as [Hs|Hs]; simpl.
  { left. eexists. by destruct w. }
  right. exists bk. split_and!; [done | done | by apply dec_stable | done].
Qed.

(** The outcomes of [create_booking]. *)
Lemma create_booking_effect env booking u ip today now log_now w :
  let r := create_booking env booking u ip today now log_now w in
  let code := "SHU" +:+ today +:+ upper (token_hex env (draws w)) in
  let bid := next_rowid (bookings (database w)) in
  let row := Booking.mk code u (BookingRequest.from_location_id booking)
               (BookingRequest.to_location_id booking) pending None None
               (BookingRequest.notes booking) (BookingRequest.passenger_count booking)
               now None None None None None None None in
  let entry := Audit.mk u "create" "booking" (Some bid) None (Some code) ip log_now in
  (∃ x, r = (inl x, w)) ∨
  (∃ x, r = (inl x, mkWorld (database w) (manager w) (wire w) (S (draws w)))) ∨
  (¬ map_Exists (λ _ b, Booking.booking_code b = code) (bookings (database w)) ∧
   ((find_available_pair (database w) = None ∧
     r = (inr (Created.mk true bid code "pending" "Booking berhasil dibuat"),
          mkWorld (add_audit entry (set_bookings (insert bid row) (database w)))
            (manager w) (wire w) (S (draws w)))) ∨
    (∃ d n v,
      find_available_pair (database w) = Some (d, n, v) ∧
      r = (inr (Created.mk true bid code "accepted" "Booking berhasil dibuat"),
           mkWorld
             (add_audit entry
                (add_notification
                   (Notification.mk d "Booking Baru" ("Booking baru #" +:+ code)
                      "booking" "high" now)
                   (set_bookings
                      (λ _, <[bid := set_accepted d v now row]> (bookings (database w)))
                      (database w))))
             (manager w)
             (wire w ++ send_to_driver env (manager w) d
                [("type", JStr "new_booking"); ("booking_id", JInt bid);
                 ("booking_code", JStr code)])
             (S (draws w)))))).
Proof.
  simpl.
  destruct (decide (size (select_active_locations (BookingRequest.from_location_id booking)
              (BookingRequest.to_location_id booking) (database w)) = 2%nat)) as [Hsz|Hsz].
  2: { left. eexists. by apply create_booking_bad_locations. }
  destruct (decide (map_Exists
    (λ _ b, Booking.booking_code b = "SHU" +:+ today +:+ upper (token_hex env (draws w)))
    (bookings (database w)))) as [Ht|Ht].
  { right. left. eexists. by apply create_booking_taken_code. }
  right. right. split; [done|].
  rewrite (create_booking_fresh_code _ _ _ _ _ _ _ _ Hsz Ht).
  destruct (find_available_pair (database w)) as [[[d n] v]|] eqn:Hpair.
  - right. by exists d, n, v.
  - left. done.
Qed.

Ltac booking_outcomes env r w :=
  destruct r as [booking u ip today now l | b u ip now l | b s u ip now l]; simpl in *;
  [ destruct (create_booking_effect env booking u ip today now l w)
      as [[y Hr]|[[y Hr]|(Ht & [[Hp Hr]|(d & n & v & Hp & Hr)])]]
  | destruct (cancel_booking_effect b u ip now l w)
      as [[y Hr]|(bk & Hb & Hu & Hs & Hr)]
  | destruct (update_booking_status_effect b s u ip now l w)
      as [[y Hr]|(bk & db' & Hb & Hd & Hr &
                  [[-> ->]|[(-> & Hv & ->)|[(-> & He & vid & Hv & ->)|[-> ->]]]])] ];
  match goal with
  | Hout : _ = (_, _) |- _ => simpl in Hout; rewrite Hout in *; clear Hout
  end;
  simpl in *.

(** X1: a request that is refused, whatever the reason, leaves the database,
    the hub and the frames sent exactly as they were: what the handler wrote
    before raising is never committed. *)
Theorem refused_request_changes_nothing env r w x :
  refusal env r w = Some x →
  database (serve env r w) = database w ∧
  manager (serve env r w) = manager w ∧
  wire (serve env r w) = wire w.
Proof. intros H. booking_outcomes env r w; done. Qed.

Lemma refused_request_changes_nothing_witness :
  database (serve calm (CancelBooking 1 4 None "11:00" "11:00") finished) =
    database finished.
Proof.
  eapply (refused_request_changes_nothing calm (CancelBooking 1 4 None "11:00" "11:00")
            finished (HTTPException 400 "Cannot cancel booking with status: completed")).
  vm_compute. reflexivity.
Defined.

(** X2: a request that is accepted adds exactly one entry to the audit log,
    at its end, naming the acting user, the action of the handler and the
    entity type "booking". *)
Theorem accepted_request_is_logged_once env r w :
  refusal env r w = None →
  ∃ a, audit_log (database (serve env r w)) = audit_log (database w) ++ [a] ∧
       Audit.user_id a = actor r ∧ Audit.action a = audit_action r ∧
       Audit.entity_type a = "booking".
Proof. intros H. booking_outcomes env r w; try done; eexists; split; done. Qed.

Lemma accepted_request_is_logged_once_witness :
  ∃ a, audit_log (database (serve calm (CancelBooking 1 4 None "09:02" "09:02") booked)) =
         audit_log (database booked) ++ [a] ∧
       Audit.user_id a = 4 ∧ Audit.action a = "cancel" ∧ Audit.entity_type a = "booking".
Proof.
  apply (accepted_request_is_logged_once calm (CancelBooking 1 4 None "09:02" "09:02")
           booked).
  vm_compute. reflexivity.
Defined.

(** X3: what no booking request ever does.  It leaves roles, users,
    vehicles, locations and the hub alone; it removes no booking and no
    trip; a booking keeps its code, rider, endpoints and creation time, a
    trip its booking, driver, vehicle and start time; notifications and the
    audit log only grow at the end. *)
Theorem booking_requests_frame env r w :
  let w' := serve env r w in
  roles (database w') = roles (database w) ∧
  users (database w') = users (database w) ∧
  vehicles (database w') = vehicles (database w) ∧
  locations (database w') = locations (database w) ∧
  manager w' = manager w ∧
  (∀ i b, bookings (database w) !! i = Some b →
     ∃ b', bookings (database w') !! i = Some b' ∧
           Booking.booking_code b' = Booking.booking_code b ∧
           Booking.user_id b' = Booking.user_id b ∧
           Booking.from_location_id b' = Booking.from_location_id b ∧
           Booking.to_location_id b' = Booking.to_location_id b ∧
           Booking.created_at b' = Booking.created_at b) ∧
  (∀ i t, trips (database w) !! i = Some t →
     ∃ t', trips (database w') !! i = Some t' ∧
           Trip.booking_id t' = Trip.booking_id t ∧ Trip.driver_id t' = Trip.driver_id t ∧
           Trip.vehicle_id t' = Trip.vehicle_id t ∧ Trip.start_time t' = Trip.start_time t) ∧
  notifications (database w) `prefix_of` notifications (database w') ∧
  audit_log (database w) `prefix_of` audit_log (database w').
Proof.
  assert (∀ (f : Booking.t → Booking.t) k (m : gmap Z Booking.t),
            (∀ b, Booking.booking_code (f b) = Booking.booking_code b ∧
                  Booking.user_id (f b) = Booking.user_id b ∧
                  Booking.from_location_id (f b) = Booking.from_location_id b ∧
                  Booking.to_location_id (f b) = Booking.to_location_id b ∧
                  Booking.created_at (f b) = Booking.created_at b) →
            ∀ i b, m !! i = Some b →
              ∃ b', alter f k m !! i = Some b' ∧
                Booking.booking_code b' = Booking.booking_code b ∧
                Booking.user_id b' = Booking.user_id b ∧
                Booking.from_location_id b' = Booking.from_location_id b ∧
                Booking.to_location_id b' = Booking.to_location_id b ∧
                Booking.created_at b' = Booking.created_at b) as Halter.
  { intros f k m Hf i b Hi. destruct (decide (i = k)) as [->|Hne].
    - exists (f b). rewrite lookup_alter_eq, Hi. split; [done | apply Hf].
    - exists b. rewrite lookup_alter_ne by done. done. }
  assert (∀ (m : gmap Z Booking.t) k row, m !! k = None →
            ∀ i b, m !! i = Some b →
              ∃ b', <[k := row]> m !! i = Some b' ∧
                Booking.booking_code b' = Booking.booking_code b ∧
                Booking.user_id b' = Booking.user_id b ∧
                Booking.from_location_id b' = Booking.from_location_id b ∧
                Booking.to_location_id b' = Booking.to_location_id b ∧
                Booking.created_at b' = Booking.created_at b) as Hins.
  { intros m k row Hk i b Hi. exists b. rewrite lookup_insert_ne by congruence. done. }
  booking_outcomes env r w; split_and!;
    try done; try (by apply prefix_app_r); try (intros; by eauto 10);
    try (apply Halter; done); try (apply Hins; apply next_rowid_fresh).
  - intros i t Hi. exists t. rewrite lookup_insert_ne; [done|].
    intros <-. by rewrite next_rowid_fresh in Hi.
  - intros i t Hi. rewrite lookup_fmap, Hi. simpl. eexists. split; [done|].
    unfold close_trip. case_decide; done.
Qed.





(** ** Edges of the driver's transitions *)

(** X6: a booking that has a trip cannot be driven into 'ongoing' again.
    The insert of the second trip hits the [UNIQUE] constraint on
    [trips.booking_id]; the request ends in that [IntegrityError], and the
    update of the booking made just before is not committed either. *)
Theorem second_ongoing_request_is_refused booking_id bk d vid vh tid t ip now log_now w :
  bookings (database w) !! booking_id = Some bk → Booking.driver_id bk = Some d →
  vehicles (database w) !! vid = Some vh → Vehicle.driver_id vh = Some d →
  trips (database w) !! tid = Some t → Trip.booking_id t = Some booking_id →
  update_booking_status booking_id "ongoing" d ip now log_now w =
    (inl (IntegrityError "UNIQUE constraint failed: trips.booking_id"), w).
Proof.
  intros Hb Hd Hv Hvd Ht Htb.
  destruct (select_vehicle_of_is_Some d (database w) vid vh Hv Hvd) as [vid' Hsel].
  eapply update_to_ongoing_twice; [by apply select_booking_of_driver_Some | done |].
  by exists tid, t.
Qed.

Lemma second_ongoing_request_is_refused_witness :
  update_booking_status 1 "ongoing" 2 None "09:12" "09:12" riding =
    (inl (IntegrityError "UNIQUE constraint failed: trips.booking_id"), riding).
Proof.
  eapply (second_ongoing_request_is_refused 1 _ 2 1 _ 1 _ None "09:12" "09:12" riding).
  - vm_compute. reflexivity.
  - reflexivity.
  - vm_compute. reflexivity.
  - reflexivity.
  - vm_compute. reflexivity.
  - reflexivity.
Defined.

(** X7: when the driver has no vehicle, 'ongoing' is accepted all the same:
    the booking becomes 'ongoing' and no trip is written. *)
Theorem ongoing_without_vehicle_opens_no_trip booking_id bk d ip now log_now w :
  bookings (database w) !! booking_id = Some bk → Booking.driver_id bk = Some d →
  (∀ vid vh, vehicles (database w) !! vid = Some vh → Vehicle.driver_id vh ≠ Some d) →
  ∃ w',
    update_booking_status booking_id "ongoing" d ip now log_now w =
      (inr (Updated.mk true "ongoing"), w') ∧
    trips (database w') = trips (database w) ∧
    Booking.status <$> bookings (database w') !! booking_id = Some ongoing.
Proof.
  intros Hb Hd Hnone.
  assert (select_vehicle_of d (database w) = None) as Hv.
  { destruct (select_vehicle_of d (database w)) as [vid|] eqn:E; [|done].
    apply select_vehicle_of_Some in E as (vh & Hvh & Hvd). by destruct (Hnone vid vh). }
  rewrite (update_to_ongoing_without_vehicle _ _ _ _ _ _ _
             (select_booking_of_driver_Some _ _ _ _ Hb Hd) Hv).
  eexists. split; [done|]. simpl. by rewrite lookup_alter_eq, Hb.
Qed.

Lemma ongoing_without_vehicle_opens_no_trip_witness :
  ∃ w', update_booking_status 1 "ongoing" 2 None "09:10" "09:10" van_gone =
          (inr (Updated.mk true "ongoing"), w') ∧
        trips (database w') = trips (database van_gone) ∧
        Booking.status <$> bookings (database w') !! 1 = Some ongoing.
Proof.
  eapply (ongoing_without_vehicle_opens_no_trip 1 _ 2 None "09:10" "09:10" van_gone).
  - vm_compute. reflexivity.
  - reflexivity.
  - intros vid vh H. simpl in H. by rewrite lookup_empty in H.
Defined.

(** X8: 'completed' on a booking without a trip of this driver is accepted:
    the booking becomes 'completed' and the trips are as they were. *)
Theorem completed_without_trip_closes_nothing booking_id bk d ip now log_now w :
  bookings (database w) !! booking_id = Some bk → Booking.driver_id bk = Some d →
  (∀ i t, trips (database w) !! i = Some t →
          ¬ (Trip.booking_id t = Some booking_id ∧ Trip.driver_id t = d)) →
  ∃ w',
    update_booking_status booking_id "completed" d ip now log_now w =
      (inr (Updated.mk true "completed"), w') ∧
    trips (database w') = trips (database w) ∧
    Booking.status <$> bookings (database w') !! booking_id = Some completed.
Proof.
  intros Hb Hd Hnone.
  rewrite (update_to_completed _ _ _ _ _ _ _ (select_booking_of_driver_Some _ _ _ _ Hb Hd)).
  eexists. split; [done|]. simpl. split; [|by rewrite lookup_alter_eq, Hb].
  apply map_eq. intros i. rewrite lookup_fmap.
  destruct (trips (database w) !! i) as [t|] eqn:E; [|done]. simpl. f_equal.
  unfold close_trip. rewrite decide_False; [done|]. by apply (Hnone i).
Qed.

Lemma completed_without_trip_closes_nothing_witness :
  ∃ w', update_booking_status 1 "completed" 2 None "09:10" "09:10" booked =
          (inr (Updated.mk true "completed"), w') ∧
        trips (database w') = trips (database booked) ∧
        Booking.status <$> bookings (database w') !! 1 = Some completed.
Proof.
  eapply (completed_without_trip_closes_nothing 1 _ 2 None "09:10" "09:10" booked).
  - vm_compute. reflexivity.
  - reflexivity.
  - intros i t H. vm_compute in H. discriminate.
Defined.

(** ** Edges of cancellation and creation *)

(** X9: a cancellation cannot be repeated.  Once a booking has been
    cancelled, every further cancel request of its rider is refused with the
    400 error naming the status 'cancelled', and changes nothing. *)
Theorem cancel_booking_twice booking_id u ip now log_now ip' now' log_now' w :
  cancellable booking_id u (database w) →
  let w1 := (cancel_booking booking_id u ip now log_now w).2 in
  cancel_booking booking_id u ip' now' log_now' w1 =
    (inl (HTTPException 400 "Cannot cancel booking with status: cancelled"), w1).
Proof.
  intros (bk & Hb & Hu & Hs). simpl.
  destruct (cancel_booking_effect booking_id u ip now log_now w)
    as [[y Hr]|(bk' & Hb' & Hu' & Hs' & Hr)]; simpl in Hr.
  { exfalso. revert Hr. unfold cancel_booking, select_booking_of_user. run.
    rewrite Hb. simpl. rewrite decide_True by done. simpl.
    rewrite decide_False by (intros Hn; by apply Hn). simpl. done. }
  rewrite Hr. simpl. unfold cancel_booking, select_booking_of_user. run.
  rewrite lookup_alter_eq, Hb'. simpl. rewrite decide_True by done. simpl.
  try rewrite decide_True by set_solver. done.
Qed.

Lemma cancel_booking_twice_witness :
  cancel_booking 1 4 None "09:03" "09:03"
    (cancel_booking 1 4 None "09:02" "09:02" booked).2 =
    (inl (HTTPException 400 "Cannot cancel booking with status: cancelled"),
     (cancel_booking 1 4 None "09:02" "09:02" booked).2).
Proof.
  apply (cancel_booking_twice 1 4 None "09:02" "09:02" None "09:03" "09:03" booked).
  eexists. split; [vm_compute; reflexivity|]. split; [reflexivity|].
  vm_compute. set_solver.
Defined.



Lemma next_rowid_above {A} (m : gmap Z A) i : is_Some (m !! i) → i < next_rowid m.
Proof.
  intros [x Hx]. apply elem_of_map_to_list in Hx.
  assert (i ∈ (map_to_list m).*1) as Hin by (apply list_elem_of_fmap; by exists (i, x)).
  assert (∀ l : list Z, ∀ k, k ∈ l → k ≤ foldr Z.max 0 l) as Hmax.
  { induction l as [|z l IH]; intros k Hk; [by apply elem_of_nil in Hk|].
    apply elem_of_cons in Hk as [->|Hk]; simpl; [lia|]. specialize (IH k Hk). lia. }
  apply Hmax in Hin. unfold next_rowid. lia.
Qed.

(** X11: a created booking gets an id no booking had, larger than every id
    in use, and is the only change to the bookings table: it belongs to the
    asking rider, runs between the two requested locations, and carries the
    code "SHU" + date + upper-cased token that the answer reports. *)
Theorem create_booking_inserts_one_fresh_row env booking u ip today now log_now w ok w' :
  create_booking env booking u ip today now log_now w = (inr ok, w') →
  bookings (database w) !! Created.booking_id ok = None ∧
  (∀ i, is_Some (bookings (database w) !! i) → i < Created.booking_id ok) ∧
  Created.booking_code ok = "SHU" +:+ today +:+ upper (token_hex env (draws w)) ∧
  ∃ row,
    bookings (database w') = <[Created.booking_id ok := row]> (bookings (database w)) ∧
    Booking.booking_code row = Created.booking_code ok ∧
    Booking.user_id row = u ∧
    Booking.from_location_id row = BookingRequest.from_location_id booking ∧
    Booking.to_location_id row = BookingRequest.to_location_id booking ∧
    Booking.notes row = BookingRequest.notes booking ∧
    Booking.passenger_count row = BookingRequest.passenger_count booking ∧
    Booking.created_at row = now.
Proof.
  intros Hr.
  pose proof (next_rowid_above (bookings (database w))) as Hlt.
  destruct (create_booking_effect env booking u ip today now log_now w)
    as [[y Hr']|[[y Hr']|(Ht & [[Hp Hr']|(d & n & v & Hp & Hr')])]];
    simpl in Hr'; rewrite Hr' in Hr; simplify_eq; simpl.
  - split_and!; [apply next_rowid_fresh | done | done |]. eexists. split_and!; done.
  - split_and!; [apply next_rowid_fresh | done | done |]. eexists. split_and!; done.
Qed.

Lemma create_booking_inserts_one_fresh_row_witness :
  bookings (database (boot one_van)) !! 1 = None.
Proof.
  eapply (create_booking_inserts_one_fresh_row calm ride_1_to_2 4 None "20250101" "09:00"
            "09:00" (boot one_van)
            (Created.mk true 1 "SHU20250101ABCDEF" "accepted" "Booking berhasil dibuat")).
  vm_compute. reflexivity.
Defined.

(** ** The hub over time *)

Lemma elem_of_list_remove x l c :
  NoDup l → c ∈ list_remove x l ↔ c ∈ l ∧ c ≠ x.
Proof.
  induction l as [|y l IH]; intros Hnd; simpl.
  - split; [by intros ?%elem_of_nil | by intros [?%elem_of_nil _]].
  - apply NoDup_cons in Hnd as [Hy Hnd]. case_decide as E.
    + subst y. split.
      * intros Hc. split; [by apply elem_of_cons; right | by intros ->].
      * intros [[->|Hc]%elem_of_cons Hne]; done.
    + rewrite !elem_of_cons, IH by done. naive_solver.
Qed.

Lemma NoDup_list_remove x l : NoDup l → NoDup (list_remove x l).
Proof.
  induction l as [|y l IH]; intros Hnd; simpl; [done|].
  apply NoDup_cons in Hnd as [Hy Hnd]. case_decide; [done|].
  apply NoDup_cons. split; [|by apply IH].
  rewrite elem_of_list_remove by done. naive_solver.
Qed.

(** X12: the websocket endpoint never registers a driver.  [/ws/tracking]
    connects every socket without user and role, so whatever sockets open,
    close and are broadcast to, the driver index stays empty; a message for
    a driver is therefore sent to nobody, and no booking request puts a
    frame on the wire. *)
Theorem endpoint_never_registers_a_driver env evs :
  let m := foldl (websocket_endpoint env) (mkManager [] ∅) evs in
  driver_connections m = ∅ ∧
  (∀ d message, send_to_driver env m d message = []) ∧
  (∀ r w, manager w = m → wire (serve env r w) = wire w).
Proof.
  simpl.
  assert (driver_connections (foldl (websocket_endpoint env) (mkManager [] ∅) evs) = ∅)
    as Hempty.
  { assert (driver_connections (mkManager [] ∅) = ∅) as H0 by done.
    revert H0. generalize (mkManager [] ∅).
    induction evs as [|ev evs IH]; intros m Hm; [done|].
    simpl. apply IH. destruct ev as [ws|ws|message]; simpl.
    - done.
    - rewrite Hm. apply map_filter_empty.
    - unfold broadcast. rewrite fan_out_spec. simpl.
      apply map_eq. intros d. rewrite lookup_empty.
      destruct (driver_connections (foldl disconnect m _) !! d) as [ws|] eqn:E; [|done].
      apply disconnect_all_drivers in E as [E _]. by rewrite Hm, lookup_empty in E. }
  assert (∀ d message,
            send_to_driver env (foldl (websocket_endpoint env) (mkManager [] ∅) evs) d message
            = []) as Hdrop.
  { intros d message. unfold send_to_driver. by rewrite Hempty, lookup_empty. }
  split_and!; [done | done |].
  intros r w Hm. booking_outcomes env r w; try done.
  rewrite Hm, Hdrop. apply app_nil_r.
Qed.

(** X13: [disconnect] unsubscribes.  With every socket listed once, a
    disconnected socket is gone from the broadcast list and from the driver
    index: no later broadcast and no message to a driver goes to it; every
    other socket keeps its place in both. *)
Theorem disconnect_unsubscribes env m websocket message :
  NoDup (active_connections m) →
  let m' := disconnect m websocket in
  (websocket ∉ active_connections m') ∧
  NoDup (active_connections m') ∧
  (∀ c, c ≠ websocket → c ∈ active_connections m' ↔ c ∈ active_connections m) ∧
  (∀ f, f ∈ (broadcast env m' message).2 → to f ≠ websocket) ∧
  (∀ d f, f ∈ send_to_driver env m' d message → to f ≠ websocket) ∧
  (∀ d ws, ws ≠ websocket →
     driver_connections m' !! d = Some ws ↔ driver_connections m !! d = Some ws).
Proof.
  intros Hnd. simpl.
  assert (websocket ∉ active_connections (disconnect m websocket)) as Hout.
  { unfold disconnect. simpl. case_decide as Hin; [|done].
    rewrite elem_of_list_remove by done. naive_solver. }
  split_and!.
  - done.
  - unfold disconnect. simpl. case_decide; [by apply NoDup_list_remove | done].
  - intros c Hc. unfold disconnect. simpl. case_decide as Hin; [|done].
    rewrite elem_of_list_remove by done. naive_solver.
  - intros f Hf. unfold broadcast in Hf. rewrite fan_out_spec in Hf. simpl in Hf.
    apply list_elem_of_fmap in Hf as (c & -> & Hc). simpl. by intros ->.
  - intros d f. unfold send_to_driver.
    destruct (driver_connections (disconnect m websocket) !! d) as [ws|] eqn:E;
      [|by intros ?%elem_of_nil].
    intros ->%list_elem_of_singleton. simpl.
    unfold disconnect in E. simpl in E. apply map_lookup_filter_Some in E as [_ E]. done.
  - intros d ws Hne. unfold disconnect. simpl. rewrite map_lookup_filter_Some. naive_solver.
Qed.

Lemma disconnect_unsubscribes_witness :
  (2%nat : WebSocket) ∉
    active_connections (disconnect (mkManager [1%nat; 2%nat; 3%nat] {[7 := 2%nat]}) 2%nat).
Proof.
  apply (disconnect_unsubscribes calm (mkManager [1%nat; 2%nat; 3%nat] {[7 := 2%nat]})
           2%nat []).
  simpl. repeat (apply NoDup_cons; split; [set_solver|]). apply NoDup_nil_2.
Defined.

(** X14: [connect] subscribes the socket to broadcasts in every case, and
    indexes it for a driver only when the role is "driver" and the user id
    is neither absent nor 0.  It then takes the driver's place in the index:
    messages for that driver go to the new socket alone, and the entries of
    other drivers are untouched. *)
Theorem connect_indexes_drivers_only env m websocket user_id role message :
  let m' := connect m websocket user_id role in
  active_connections m' = active_connections m ++ [websocket] ∧
  (∀ uid, user_id = Some uid → uid ≠ 0 → role = Some "driver" →
     send_to_driver env m' uid message =
       [mkFrame websocket message (peer_up env websocket)] ∧
     ∀ d, d ≠ uid → driver_connections m' !! d = driver_connections m !! d) ∧
  ((role ≠ Some "driver" ∨ user_id = None ∨ user_id = Some 0) →
     driver_connections m' = driver_connections m).
Proof.
  simpl. unfold connect. split_and!.
  - destruct user_id; [case_match|]; done.
  - intros uid -> Hne ->. rewrite bool_decide_true by done.
    rewrite bool_decide_true by done. simpl. split.
    + unfold send_to_driver. simpl. by rewrite lookup_insert_eq.
    + intros d Hd. by rewrite lookup_insert_ne.
  - intros [Hr|[->| ->]]; [|done|].
    + destruct user_id; [|done]. rewrite bool_decide_false by done. done.
    + rewrite (bool_decide_false (0 ≠ 0)) by (intros H; by apply H).
      by rewrite andb_false_r.
Qed.

Lemma connect_indexes_drivers_only_witness :
  send_to_driver calm
    (connect (mkManager [1%nat] {[7 := 1%nat]}) 2%nat (Some 7) (Some "driver")) 7 [] =
    [mkFrame 2%nat [] true].
Proof.
  apply (connect_indexes_drivers_only calm (mkManager [1%nat] {[7 := 1%nat]}) 2%nat
           (Some 7) (Some "driver") []); [reflexivity | lia | reflexivity].
Defined.

(** ** Location samples *)

Lemma select_active_trip_None d db :
  select_active_trip d db = None ↔
  ∀ i t, trips db !! i = Some t → Trip.driver_id t = d → Trip.status t ≠ trip_ongoing.
Proof.
  unfold select_active_trip.
  set (l := filter (λ kv : Z * Trip.t,
                      Trip.driver_id kv.2 = d ∧ Trip.status kv.2 = trip_ongoing)
                   (map_to_list (trips db))).
  set (R := λ a b : Z * Trip.t, String.le (Trip.start_time b.2) (Trip.start_time a.2)).
  pose proof (merge_sort_Permutation R l) as Hperm.
  split.
  - intros Hnone i t Hi Hd Hs.
    assert ((i, t) ∈ l) as Hin
      by (apply list_elem_of_filter; split; [done | by apply elem_of_map_to_list]).
    rewrite <- Hperm in Hin.
    destruct (merge_sort R l) as [|x s]; [by apply elem_of_nil in Hin | done].
  - intros Hall. destruct (merge_sort R l) as [|[i t] s] eqn:E; [done|]. exfalso.
    assert ((i, t) ∈ l) as Hin by (rewrite <- Hperm; apply elem_of_cons; by left).
    apply list_elem_of_filter in Hin as [[Hd Hs] Hin]. apply elem_of_map_to_list in Hin.
    by apply (Hall i t).
Qed.


(** X15: without an ongoing trip of the driver a location sample is refused
    with the 400 error "No active trip": no row is stored, nothing is
    broadcast, and the world is as it was. *)
Theorem sample_without_trip_is_refused {F} env (number : F → Json) data d now
    (s : Tracking F) :
  (∀ i t, trips (database (site s)) !! i = Some t → Trip.driver_id t = d →
          Trip.status t ≠ trip_ongoing) →
  submit_driver_location env number data d now s =
    (inl (HTTPException 400 "No active trip"), s).
Proof.
  intros H. apply select_active_trip_None in H.
  unfold submit_driver_location. by rewrite H.
Qed.

Lemma sample_without_trip_is_refused_witness :
  submit_driver_location calm (λ n : Z, JInt n) (LocationData.mk 1 2 3 4 5 None) 2 "09:07"
    (mkTracking arriving []) =
    (inl (HTTPException 400 "No active trip"), mkTracking arriving []).
Proof.
  apply (sample_without_trip_is_refused calm (λ n : Z, JInt n)
           (LocationData.mk 1 2 3 4 5 None) 2 "09:07" (mkTracking arriving [])).
  intros i t H. vm_compute in H. discriminate.
Defined.





(** ** Location administration *)


Lemma delete_location_effect L admin ip log_now w :
  delete_location L admin ip log_now w =
    (inr true,
     mkWorld
       (add_audit (Audit.mk admin "delete" "location" (Some L) None None ip log_now)
          (set_locations (alter set_inactive L) (database w)))
       (manager w) (wire w) (draws w)).
Proof. unfold delete_location. run. done. Qed.



Lemma create_location_effect location admin ip log_now w :
  let r := create_location location admin ip log_now w in
  let id := next_rowid (locations (database w)) in
  ((LocationCreate.type location ∉ ["pickup"; "drop"; "both"]) ∧
   r = (inl (IntegrityError "CHECK constraint failed: locations"), w)) ∨
  (map_Exists (λ _ l, Location.name l = LocationCreate.name location)
     (locations (database w)) ∧
   r = (inl (IntegrityError "UNIQUE constraint failed: locations.name"), w)) ∨
  (LocationCreate.type location ∈ ["pickup"; "drop"; "both"] ∧
   ¬ map_Exists (λ _ l, Location.name l = LocationCreate.name location)
       (locations (database w)) ∧
   r = (inr id,
        mkWorld
          (add_audit
             (Audit.mk admin "create" "location" (Some id) None
                (Some (LocationCreate.name location)) ip log_now)
             (set_locations
                (insert id (Location.mk (LocationCreate.name location) loc_active))
                (database w)))
          (manager w) (wire w) (draws w))).
Proof.
  unfold create_location, insert_location. run.
  destruct (decide (LocationCreate.type location ∉ ["pickup"; "drop"; "both"])) as [Ht|Ht];
    simpl.
  { left. split; [done | by destruct w]. }
  destruct (decide (map_Exists (λ _ l, Location.name l = LocationCreate.name location)
                      (locations (database w)))) as [Hn|Hn]; simpl.
  { right. left. split; [done | by destruct w]. }
  right. right. split_and!; [by apply dec_stable | done | done].
Qed.

Lemma update_location_effect location_id location admin ip log_now w :
  let r := update_location location_id location admin ip log_now w in
  (∃ x, r = (inl x, w)) ∨
  (locations (database w) !! location_id = None ∧
   r = (inr true,
        mkWorld
          (add_audit
             (Audit.mk admin "update" "location" (Some location_id) None
                (Some (LocationCreate.name location)) ip log_now)
             (database w))
          (manager w) (wire w) (draws w))) ∨
  (∃ l0,
     locations (database w) !! location_id = Some l0 ∧
     LocationCreate.type location ∈ ["pickup"; "drop"; "both"] ∧
     ¬ map_Exists (λ i l, i ≠ location_id ∧ Location.name l = LocationCreate.name location)
         (locations (database w)) ∧
     r = (inr true,
          mkWorld
            (add_audit
               (Audit.mk admin "update" "location" (Some location_id)
                  (Some (Location.name l0)) (Some (LocationCreate.name location)) ip log_now)
               (set_locations (alter (set_name (LocationCreate.name location)) location_id)
                  (database w)))
            (manager w) (wire w) (draws w))).
Proof.
  unfold update_location, update_location_row. run.
  destruct (locations (database w) !! location_id) as [l0|] eqn:Hl; simpl.
  2: { right. left. done. }
  destruct (decide (LocationCreate.type location ∉ ["pickup"; "drop"; "both"])) as [Ht|Ht];
    simpl.
  { left. eexists. by destruct w. }
  case_decide as Hn; simpl.
  { left. eexists. by destruct w. }
  right. right. exists l0. split_and!; [done | by apply dec_stable | done | done].
Qed.

Lemma get_locations_elem db i l :
  (i, l) ∈ get_locations db ↔
  locations db !! i = Some l ∧ Location.status l = loc_active.
Proof.
  unfold get_locations. rewrite merge_sort_Permutation, list_elem_of_filter.
  rewrite elem_of_map_to_list. simpl. naive_solver.
Qed.





Lemma administer_locations r w :
  let L := locations (database w) in
  let L' := locations (database (administer r w)) in
  L' = L ∨
  (∃ id row, L !! id = None ∧ Location.status row = loc_active ∧
             ¬ map_Exists (λ _ l, Location.name l = Location.name row) L ∧
             L' = <[id := row]> L) ∨
  (∃ id n, ¬ map_Exists (λ i l, i ≠ id ∧ Location.name l = n) L ∧
           L' = alter (set_name n) id L) ∨
  (∃ id, L' = alter set_inactive id L).
Proof.
  destruct r as [location u ip l | id location u ip l | id u ip l];
    cbv beta iota zeta delta [administer].
  - destruct (create_location_effect location u ip l w)
      as [[Ht Hr]|[[Hn Hr]|(Ht & Hn & Hr)]]; simpl in Hr; rewrite Hr; simpl; [auto..|].
    right. left. eexists _, _. split_and!; [apply next_rowid_fresh | | | done]; done.
  - destruct (update_location_effect id location u ip l w)
      as [[x Hr]|[[_ Hr]|(l0 & Hl & _ & Hn & Hr)]]; simpl in Hr; rewrite Hr; simpl;
      [auto..|].
    right. right. left. eauto.
  - rewrite delete_location_effect. simpl. right. right. right. eauto.
Qed.

(** X21: no request of the administrator removes a location or brings one
    back: every location is still there afterwards, and one that was not
    active is not active afterwards.  (Booking requests do not write the
    table at all.) *)
Theorem location_is_never_reactivated r w i l :
  locations (database w) !! i = Some l →
  ∃ l', locations (database (administer r w)) !! i = Some l' ∧
        (Location.status l ≠ loc_active → Location.status l' ≠ loc_active).
Proof.
  intros Hi.
  destruct (administer_locations r w)
    as [H|[(id & row & Hf & _ & _ & H)|[(id & n & _ & H)|(id & H)]]];
    simpl in H; rewrite H.
  - eauto.
  - exists l. rewrite lookup_insert_ne by congruence. done.
  - destruct (decide (i = id)) as [->|Hne].
    + rewrite lookup_alter_eq, Hi. simpl. eauto.
    + rewrite lookup_alter_ne by done. eauto.
  - destruct (decide (i = id)) as [->|Hne].
    + rewrite lookup_alter_eq, Hi. simpl. eauto.
    + rewrite lookup_alter_ne by done. eauto.
Qed.

Lemma location_is_never_reactivated_witness :
  ∃ l', locations (database
          (administer (UpdateLocation 2 (LocationCreate.mk "PPS 2" "both") 1 None "08:05")
             (administer (DeleteLocation 2 1 None "08:00") (boot seed)))) !! 2 = Some l' ∧
        (loc_inactive ≠ loc_active → Location.status l' ≠ loc_active).
Proof.
  apply (location_is_never_reactivated
           (UpdateLocation 2 (LocationCreate.mk "PPS 2" "both") 1 None "08:05")
           (administer (DeleteLocation 2 1 None "08:00") (boot seed)) 2
           (Location.mk "PPS" loc_inactive)).
  vm_compute. reflexivity.
Defined.



(** X23: [get_locations] lists exactly the active locations, each under its
    id, in ascending order of name. *)
Theorem get_locations_active_sorted db :
  (∀ i l, (i, l) ∈ get_locations db ↔
          locations db !! i = Some l ∧ Location.status l = loc_active) ∧
  StronglySorted
    (λ a b : Z * Location.t, String.le (Location.name a.2) (Location.name b.2))
    (get_locations db) ∧
  NoDup (get_locations db).*1.
Proof.
  split_and!.
  - intros i l. apply get_locations_elem.
  - unfold get_locations. apply StronglySorted_merge_sort.
    + intros a b c Hab Hbc. simpl in *. by etrans.
    + intros a b. simpl. apply (total String.le).
  - unfold get_locations. rewrite merge_sort_Permutation.
    eapply sublist_NoDup; [apply (NoDup_fst_map_to_list (locations db))|].
    apply fmap_sublist, sublist_filter.
Qed.

(** ** Listings *)

(** X24: [get_driver_bookings] shows a driver exactly the bookings that
    name them and are neither completed nor cancelled (and whose rider and
    locations exist), each with the names joined to it, newest first; no
    booking of another driver is ever in the list. *)
Theorem get_driver_bookings_lists_open_bookings d db :
  (∀ row, row ∈ get_driver_bookings d db ↔
     bookings db !! db_id row = Some (db_booking row) ∧
     Booking.driver_id (db_booking row) = Some d ∧
     Booking.status (db_booking row) ≠ completed ∧
     Booking.status (db_booking row) ≠ cancelled ∧
     (∃ u, users db !! Booking.user_id (db_booking row) = Some u ∧
           db_user_name row = User.name u) ∧
     (∃ l1, locations db !! Booking.from_location_id (db_booking row) = Some l1 ∧
            db_from_location row = Location.name l1) ∧
     (∃ l2, locations db !! Booking.to_location_id (db_booking row) = Some l2 ∧
            db_to_location row = Location.name l2)) ∧
  StronglySorted
    (λ a b, String.le (Booking.created_at (db_booking b))
                      (Booking.created_at (db_booking a)))
    (get_driver_bookings d db).
Proof.
  split.
  - intros row. unfold get_driver_bookings.
    rewrite merge_sort_Permutation, list_elem_of_bind. split.
    + intros ([i b] & Hin & Hb). apply elem_of_map_to_list in Hb.
      destruct (users db !! Booking.user_id b) as [u|] eqn:Hu;
        [|by apply elem_of_nil in Hin].
      destruct (locations db !! Booking.from_location_id b) as [l1|] eqn:H1;
        [|by apply elem_of_nil in Hin].
      destruct (locations db !! Booking.to_location_id b) as [l2|] eqn:H2;
        [|by apply elem_of_nil in Hin].
      case_decide as Hc; [|by apply elem_of_nil in Hin].
      apply list_elem_of_singleton in Hin as ->. simpl. naive_solver.
    + intros (Hb & Hd & Hs1 & Hs2 & (u & Hu & Hun) & (l1 & H1 & H1n) & (l2 & H2 & H2n)).
      exists (db_id row, db_booking row). split; [|by apply elem_of_map_to_list].
      rewrite Hu, H1, H2. rewrite decide_True by done.
      apply list_elem_of_singleton. destruct row. simpl in *. congruence.
  - unfold get_driver_bookings. apply StronglySorted_merge_sort.
    + intros a b c Hab Hbc. simpl in *. by etrans.
    + intros a b. simpl. apply (total String.le).
Qed.

(** ** Sessions *)

Lemma substring_whole s : String.substring 0 (String.length s) s = s.
Proof. induction s as [|c s IH]; simpl; [done | by rewrite IH]. Qed.

Lemma prefix_split p h :
  String.prefix p h = true →
  h = p +:+ String.substring (String.length p) (String.length h - String.length p) h.
Proof.
  revert h. induction p as [|a p IH]; intros h Hp; simpl.
  - by rewrite Nat.sub_0_r, substring_whole.
  - destruct h as [|b h]; [done|]. simpl in Hp.
    destruct (Ascii.ascii_dec a b) as [->|]; [|done].
    change (String b h =
            String b (p +:+ String.substring (String.length p)
                              (String.length h - String.length p) h)).
    f_equal. by apply IH.
Qed.

Lemma bearer_token_Some authorization token :
  bearer_token authorization = Some token ↔ authorization = Some ("Bearer " +:+ token).
Proof.
  unfold bearer_token. split.
  - destruct authorization as [header|]; [|done].
    destruct (String.prefix "Bearer " header) eqn:Hp; [|done].
    intros [= <-]. f_equal. by apply (prefix_split "Bearer " header).
  - intros ->.
    assert (∀ c p t, String c p +:+ t = String c (p +:+ t)) as Hcons by done.
    assert (∀ t, "" +:+ t = t) as Hnil by done.
    rewrite !Hcons, Hnil.
    simpl. repeat (destruct (Ascii.ascii_dec _ _); [|done]).
    assert (String.prefix "" token = true) as -> by (by destruct token).
    f_equal. rewrite Nat.sub_0_r. apply substring_whole.
Qed.

Lemma select_session_Some token now sessions db uid role status :
  select_session token now sessions db = Some (uid, role, status) →
  ∃ sid s u r,
    sessions !! sid = Some s ∧ Session.token s = token ∧ Session.user_id s = uid ∧
    ¬ String.le (Session.expires_at s) now ∧
    users db !! uid = Some u ∧ User.status u = status ∧
    roles db !! User.role_id u = Some r ∧ Role.name r = role.
Proof.
  unfold select_session. intros H%head_Some_elem_of.
  apply list_elem_of_bind in H as ([sid s] & Hin & Hs). apply elem_of_map_to_list in Hs.
  destruct (users db !! Session.user_id s) as [u|] eqn:Hu; [|by apply elem_of_nil in Hin].
  destruct (roles db !! User.role_id u) as [r|] eqn:Hr; [|by apply elem_of_nil in Hin].
  case_decide as Hc; [|by apply elem_of_nil in Hin].
  apply list_elem_of_singleton in Hin as [= -> -> ->].
  exists sid, s, u, r. naive_solver.
Qed.

Lemma select_session_None token now sessions db :
  select_session token now sessions db = None ↔
  ∀ sid s u r, sessions !! sid = Some s → Session.token s = token →
    users db !! Session.user_id s = Some u → roles db !! User.role_id u = Some r →
    String.le (Session.expires_at s) now.
Proof.
  unfold select_session. rewrite head_None. split.
  - intros Hnil sid s u r Hs Ht Hu Hr.
    destruct (decide (String.le (Session.expires_at s) now)) as [|Hexp]; [done|]. exfalso.
    assert ((Session.user_id s, Role.name r, User.status u) ∈ ([] : list (Z * string * UserStatus)))
      as Hin; [|by apply elem_of_nil in Hin].
    rewrite <- Hnil. apply list_elem_of_bind. exists (sid, s).
    split; [|by apply elem_of_map_to_list].
    rewrite Hu, Hr. rewrite decide_True by done. by apply list_elem_of_singleton.
  - intros Hall.
    destruct (_ ≫= _) as [|x l] eqn:E; [done|]. exfalso.
    assert (x ∈ x :: l) as Hin by (apply elem_of_cons; by left).
    rewrite <- E in Hin. apply list_elem_of_bind in Hin as ([sid s] & Hin & Hs).
    apply elem_of_map_to_list in Hs.
    destruct (users db !! Session.user_id s) as [u|] eqn:Hu; [|by apply elem_of_nil in Hin].
    destruct (roles db !! User.role_id u) as [r|] eqn:Hr; [|by apply elem_of_nil in Hin].
    case_decide as Hc; [|by apply elem_of_nil in Hin].
    destruct Hc as [Ht Hexp]. apply Hexp. by apply (Hall sid s u r).
Qed.

(** X25: what [require_role] lets through.  If it answers with a user id,
    the header is "Bearer " followed by the token of a stored session of
    that user which has not expired; the user exists and is active, and the
    name of the user's role is one of the roles allowed. *)
Theorem require_role_admits_live_sessions_only allowed authorization now sessions db uid :
  require_role allowed authorization now sessions db = inr uid →
  ∃ token sid s u r,
    authorization = Some ("Bearer " +:+ token) ∧
    sessions !! sid = Some s ∧ Session.token s = token ∧ Session.user_id s = uid ∧
    ¬ String.le (Session.expires_at s) now ∧
    users db !! uid = Some u ∧ User.status u = user_active ∧
    roles db !! User.role_id u = Some r ∧ Role.name r ∈ allowed.
Proof.
  unfold require_role, get_current_user.
  destruct (bearer_token authorization) as [token|] eqn:Hb; [|done].
  apply bearer_token_Some in Hb.
  destruct (select_session token now sessions db) as [[[uid' role] status]|] eqn:Hs; [|done].
  destruct (decide (status ≠ user_active)) as [Hst|Hst]; [done|].
  destruct (decide (role ∉ allowed)) as [Hrole|Hrole]; [done|]. intros [= <-].
  apply select_session_Some in Hs as (sid & s & u & r & H1 & H2 & H3 & H4 & H5 & H6 & H7 & H8).
  exists token, sid, s, u, r.
  assert (status = user_active) as -> by (destruct (decide (status = user_active)); done).
  assert (role ∈ allowed) by (destruct (decide (role ∈ allowed)); done).
  subst. done.
Qed.

(** X26: a session is dead from its expiry instant on.  When every stored
    session with the token of the header expires at or before the time of
    the request (or there is none), the request is refused with the 401 of
    an invalid or expired token, whoever the user is. *)
Theorem expired_token_is_refused token now sessions db :
  (∀ sid s, sessions !! sid = Some s → Session.token s = token →
            String.le (Session.expires_at s) now) →
  get_current_user (Some ("Bearer " +:+ token)) now sessions db =
    inl (HTTPException 401 "Invalid or expired token").
Proof.
  intros Hexp. unfold get_current_user.
  rewrite (proj2 (bearer_token_Some _ token) eq_refl).
  assert (select_session token now sessions db = None) as ->; [|done].
  apply select_session_None. intros sid s u r Hs Ht _ _. by apply (Hexp sid s).
Qed.

(** X27: [logout] ends the session.  After a logout that succeeded, the
    same header is refused at any later time with the 401 of an invalid
    token; sessions with another token are kept as they are, none is added;
    and one audit entry "logout" of that user is written. *)
Theorem logout_ends_the_session authorization now log_now sessions w sessions' w' :
  logout authorization now log_now sessions w = (inr true, (sessions', w')) →
  (∀ now', get_current_user authorization now' sessions' (database w') =
           inl (HTTPException 401 "Invalid or expired token")) ∧
  (∀ sid s, sessions' !! sid = Some s ↔
            sessions !! sid = Some s ∧ bearer_token authorization ≠ Some (Session.token s)) ∧
  ∃ uid,
    require_role ["pengguna"; "admin"; "driver"] authorization now sessions (database w)
      = inr uid ∧
    database w' =
      add_audit (Audit.mk uid "logout" "user" (Some uid) None None None log_now)
                (database w).
Proof.
  unfold logout.
  destruct (require_role _ authorization now sessions (database w)) as [x|uid] eqn:Hrole;
    [done|].
  destruct (bearer_token authorization) as [token|] eqn:Hb; [|done].
  intros [= <- <-].
  assert (∀ sid s,
            filter (λ kv : Z * Session.t, Session.token kv.2 ≠ token) sessions !! sid = Some s ↔
            sessions !! sid = Some s ∧ Some token ≠ Some (Session.token s)) as Hkept.
  { intros sid s. rewrite map_lookup_filter_Some. simpl. naive_solver. }
  split_and!.
  - intros now'. unfold get_current_user. rewrite Hb.
    match goal with |- context [select_session token now' ?ss ?db] =>
      assert (select_session token now' ss db = None) as ->; [|done]
    end.
    apply select_session_None. intros sid s u r Hs Ht. apply Hkept in Hs as [_ Hne].
    congruence.
  - done.
  - exists uid. split; [done|]. unfold get_db, log_audit. run. done.
Qed.

Lemma require_role_admits_live_sessions_only_witness :
  ∃ token sid s u r,
    Some "Bearer tok-driver" = Some ("Bearer " +:+ token) ∧
    one_session !! sid = Some s ∧ Session.token s = token ∧ Session.user_id s = 2 ∧
    ¬ String.le (Session.expires_at s) "2025-01-01T09:30:00" ∧
    users seed !! 2 = Some u ∧ User.status u = user_active ∧
    roles seed !! User.role_id u = Some r ∧ Role.name r ∈ ["driver"].
Proof.
  apply (require_role_admits_live_sessions_only ["driver"] (Some "Bearer tok-driver")
           "2025-01-01T09:30:00" one_session seed 2).
  vm_compute. reflexivity.
Defined.

Lemma expired_token_is_refused_witness :
  get_current_user (Some ("Bearer " +:+ "tok-driver")) "2025-01-08T09:00:00" one_session
    seed = inl (HTTPException 401 "Invalid or expired token").
Proof.
  apply (expired_token_is_refused "tok-driver" "2025-01-08T09:00:00" one_session seed).
  intros sid s Hs _. unfold one_session in Hs.
  apply lookup_singleton_Some in Hs as [_ <-]. vm_compute. exact I.
Defined.

Lemma logout_ends_the_session_witness :
  get_current_user (Some "Bearer tok-driver") "2025-01-02T00:00:00"
    (logout (Some "Bearer tok-driver") "2025-01-01T09:30:00" "2025-01-01T09:30:00"
       one_session (boot seed)).2.1
    (database
       (logout (Some "Bearer tok-driver") "2025-01-01T09:30:00" "2025-01-01T09:30:00"
          one_session (boot seed)).2.2) =
  inl (HTTPException 401 "Invalid or expired token").
Proof.
  refine (proj1 (logout_ends_the_session (Some "Bearer tok-driver") "2025-01-01T09:30:00"
                   "2025-01-01T09:30:00" one_session (boot seed) _ _ _)
                "2025-01-02T00:00:00").
  vm_compute. reflexivity.
Defined.

(** ** Dispatch and the fleet *)

(** X28: from a database without bookings, whatever booking requests are
    served in whatever order, every driver that a booking names has a
    vehicle of their own: dispatch assigns a driver only together with a
    vehicle of that driver, and no request writes the vehicles table. *)
Theorem assigned_drivers_always_have_a_vehicle env rs db i bk d :
  bookings db = ∅ →
  let w := foldl (λ w r, serve env r w) (boot db) rs in
  bookings (database w) !! i = Some bk → Booking.driver_id bk = Some d →
  ∃ vid vh, vehicles (database w) !! vid = Some vh ∧ Vehicle.driver_id vh = Some d ∧
            vehicles (database w) = vehicles db.
Proof.
  intros Hempty w Hi Hd.
  destruct (run_keeps_drivers_have_vehicles env rs db Hempty i bk d Hi Hd)
    as (vid & vh & Hv & Hvd).
  exists vid, vh. split_and!; [done..|].
  subst w. clear. change db with (database (boot db)) at 2. generalize (boot db).
  induction rs as [|r rs IH]; intros w0; [done|].
  simpl. rewrite IH. clear. booking_outcomes env r w0; done.
Qed.

Lemma assigned_drivers_always_have_a_vehicle_witness :
  ∃ vid vh, vehicles (database booked) !! vid = Some vh ∧
            Vehicle.driver_id vh = Some 2 ∧
            vehicles (database booked) = vehicles one_van.
Proof.
  apply (assigned_drivers_always_have_a_vehicle calm
           [CreateBooking ride_1_to_2 4 None "20250101" "09:00" "09:00"] one_van 1
           (set_accepted 2 1 "09:00"
              (Booking.mk "SHU20250101ABCDEF" 4 1 2 pending None None None 1 "09:00"
                 None None None None None None None)) 2).
  - reflexivity.
  - vm_compute. reflexivity.
  - reflexivity.
Defined.
